(** * The quiz-generation route of english-ai: [POST] and [parseDifyCSV]

    A shallow embedding of the API route that forwards a request to the Dify
    workflow engine and parses its textual answer into question records.
    The route is TypeScript; what it computes is determined by the ECMAScript
    built-ins it calls ([String.prototype.trim], [split], [includes],
    [replace], [match], [JSON.parse]), so those are embedded first, each as an
    executable function, and the route's own two functions on top of them. *)

From Stdlib Require Import String Ascii NArith ZArith Bool Arith Lia List.
Import ListNotations.

Set Warnings "-register-all".

Local Open Scope N_scope.
Local Open Scope list_scope.

(** ** ECMAScript strings *)

Module JsString.

(** A string value is a finite sequence of 16-bit code units. *)
Definition code_unit := N.
Definition jsstring := list code_unit.

(** Literals of the source that are plain ASCII are written [js "..."]. *)
Definition js (s : string) : jsstring :=
  map N_of_ascii (list_ascii_of_string s).

Definition LF : code_unit := 0x0A.
Definition DQUOTE : code_unit := 0x22.
Definition BACKSLASH : code_unit := 0x5C.

Definition jsstring_eqb (a b : jsstring) : bool :=
  if list_eq_dec N.eq_dec a b then true else false.

(** WhiteSpace and LineTerminator code points: what [trim] strips and what
    the pattern class [\s] accepts. *)
Definition isWhiteSpace (c : code_unit) : bool :=
  ((0x09 <=? c) && (c <=? 0x0D))
  || (c =? 0x20) || (c =? 0xA0) || (c =? 0x1680)
  || ((0x2000 <=? c) && (c <=? 0x200A))
  || (c =? 0x2028) || (c =? 0x2029) || (c =? 0x202F)
  || (c =? 0x205F) || (c =? 0x3000) || (c =? 0xFEFF).

Fixpoint trimStart (s : jsstring) : jsstring :=
  match s with
  | [] => []
  | c :: tl => if isWhiteSpace c then trimStart tl else s
  end.

Definition trimEnd (s : jsstring) : jsstring := rev (trimStart (rev s)).

(** [s.trim()] *)
Definition trim (s : jsstring) : jsstring := trimEnd (trimStart s).

(** [s.startsWith(p)]: [p] occurs at position 0 of [s]. *)
Fixpoint startsWith (s p : jsstring) {struct p} : bool :=
  match p, s with
  | [], _ => true
  | _ :: _, [] => false
  | a :: p', b :: s' => (a =? b) && startsWith s' p'
  end.

(** [s.includes(p)]: [p] occurs at some position of [s]. *)
Fixpoint includes (s p : jsstring) : bool :=
  match s with
  | [] => startsWith [] p
  | _ :: tl => startsWith s p || includes tl p
  end.

(** [s.split(sep)] for a string separator.  The scan goes left to right; at
    an occurrence of [sep] the piece read so far is closed and the scan
    resumes after the occurrence.  [split_from sep skip s] returns the piece
    being read and the pieces after it; [skip] counts the code units of an
    occurrence of [sep] still to be passed over. *)
Fixpoint split_from (sep : jsstring) (skip : nat) (s : jsstring)
  : jsstring * list jsstring :=
  match s with
  | [] => ([], [])
  | c :: tl =>
      match skip with
      | S k => split_from sep k tl
      | O =>
          if startsWith s sep
          then ([], let '(h, t) := split_from sep (length sep - 1) tl in h :: t)
          else let '(h, t) := split_from sep 0 tl in (c :: h, t)
      end
  end.

Definition split (s sep : jsstring) : list jsstring :=
  match sep with
  | [] => map (fun c => [c]) s
  | _ :: _ => let '(h, t) := split_from sep 0 s in h :: t
  end.

(** [pieces.join(sep)], the inverse reading of [split]. *)
Fixpoint join (sep : jsstring) (pieces : list jsstring) : jsstring :=
  match pieces with
  | [] => []
  | [p] => p
  | p :: rest => p ++ sep ++ join sep rest
  end.

End JsString.
Import JsString.

(** ** Regular expressions

    The backtracking matcher of the ECMAScript specification, for the
    pattern syntax the route uses: characters, classes, sequence,
    alternation, greedy and lazy [*], one capturing group, positive
    lookahead and the end-of-input assertion [$] (no pattern here has the
    [m] flag). *)

Module RegExp.

Inductive regex : Type :=
| Empty
| Chr (c : code_unit)
| Class (member : code_unit -> bool)
| Seq (a b : regex)
| Alt (a b : regex)
| Star (greedy : bool) (a : regex)
| Capture (a : regex)
| Lookahead (a : regex)
| EndOfInput.

(** The literal text [t] as a pattern. *)
Fixpoint Lit (t : jsstring) : regex :=
  match t with
  | [] => Empty
  | c :: tl => Seq (Chr c) (Lit tl)
  end.

(** [a?] *)
Definition Opt (a : regex) : regex := Alt a Empty.

Definition isLower (c : code_unit) : bool := (0x61 <=? c) && (c <=? 0x7A).
Definition isUpper (c : code_unit) : bool := (0x41 <=? c) && (c <=? 0x5A).

Definition toUpper (c : code_unit) : code_unit :=
  if isLower c then c - 0x20 else c.
Definition toLower (c : code_unit) : code_unit :=
  if isUpper c then c + 0x20 else c.

(** Canonicalize of a pattern without the [u] flag maps a code unit to its
    upper case, except that a code unit from 128 up is never mapped below
    128.  Every pattern character and class bound of this file is ASCII, and
    no code unit from 128 up has a white-space upper case, so the upper-case
    table above 127 cannot change a comparison made here and is left out. *)
Definition Canonicalize (ignoreCase : bool) (c : code_unit) : code_unit :=
  if ignoreCase then toUpper c else c.

(** A class accepts [c] when one of its members canonicalizes like [c]; the
    only candidates are [c] and its two ASCII case variants. *)
Definition classAccepts (ignoreCase : bool) (member : code_unit -> bool)
           (c : code_unit) : bool :=
  member c || (ignoreCase && (member (toUpper c) || member (toLower c))).

(** The matcher's state: the input still ahead and the capture of group 1. *)
Record mstate : Type := MState { rest : jsstring; group1 : option jsstring }.

Definition consumed (from to : mstate) : jsstring :=
  firstn (List.length (rest from) - List.length (rest to)) (rest from).

(** The loop of [a*]: [body] matches one [a].  The greedy loop prefers one
    more iteration, the lazy loop prefers to stop.  An iteration that
    consumes nothing is rejected, so a loop entered with [n] code units ahead
    makes at most [n] iterations: the counter is exact, not a bound that can
    run out. *)
Definition starLoop (body : mstate -> (mstate -> option mstate) -> option mstate)
           (greedy : bool) (k : mstate -> option mstate)
  : nat -> mstate -> option mstate :=
  fix loop (n : nat) (st : mstate) {struct n} : option mstate :=
    let again :=
      match n with
      | O => None
      | S n' =>
          body st
            (fun st' =>
               if (List.length (rest st') <? List.length (rest st))%nat
               then loop n' st' else None)
      end in
    if greedy
    then match again with Some res => Some res | None => k st end
    else match k st with Some res => Some res | None => again end.

(** [matcher ic r st k]: match [r] at [st], then the continuation [k];
    alternatives are tried in priority order, the first that lets [k]
    succeed wins. *)
Fixpoint matcher (ic : bool) (r : regex) (st : mstate)
         (k : mstate -> option mstate) {struct r} : option mstate :=
  match r with
  | Empty => k st
  | Chr c =>
      match rest st with
      | ch :: tl =>
          if Canonicalize ic ch =? Canonicalize ic c
          then k (MState tl (group1 st)) else None
      | [] => None
      end
  | Class member =>
      match rest st with
      | ch :: tl =>
          if classAccepts ic member ch
          then k (MState tl (group1 st)) else None
      | [] => None
      end
  | Seq a b => matcher ic a st (fun st' => matcher ic b st' k)
  | Alt a b =>
      match matcher ic a st k with
      | Some res => Some res
      | None => matcher ic b st k
      end
  | Star greedy a =>
      starLoop (matcher ic a) greedy k (List.length (rest st)) st
  | Capture a =>
      matcher ic a st
        (fun st' => k (MState (rest st') (Some (consumed st st'))))
  | Lookahead a =>
      match matcher ic a st Some with
      | Some st' => k (MState (rest st) (group1 st'))
      | None => None
      end
  | EndOfInput =>
      match rest st with
      | [] => k st
      | _ :: _ => None
      end
  end.

(** A pattern literal with its flags. *)
Record RegExp : Type :=
  { pattern : regex; ignoreCase : bool; global : bool }.

(** One attempt at the current position. *)
Definition matchAt (re : RegExp) (s : jsstring) : option mstate :=
  matcher (ignoreCase re) (pattern re) (MState s None) Some.

(** The result array of a successful match: element 0 and element 1. *)
Record MatchResult : Type :=
  { matched : jsstring; capture1 : option jsstring }.

(** [s.match(re)] for a pattern without the [g] flag: the first position,
    from 0 up to and including the length, at which the pattern matches. *)
Fixpoint exec (re : RegExp) (s : jsstring) : option MatchResult :=
  match matchAt re s with
  | Some st =>
      Some {| matched := consumed (MState s None) st; capture1 := group1 st |}
  | None =>
      match s with
      | [] => None
      | _ :: tl => exec re tl
      end
  end.

(** [s.replace(re, replacement)] for a replacement text without [$].  With
    the [g] flag every match, found left to right from the end of the
    previous one, is replaced.  [skip] counts the code units of
    the current match still to be passed over; after an empty match the scan
    moves on by one code unit, which is copied. *)
Fixpoint replace_from (re : RegExp) (replacement : jsstring) (skip : nat)
         (s : jsstring) {struct s} : jsstring :=
  match skip with
  | S k =>
      match s with
      | [] => []
      | _ :: tl => replace_from re replacement k tl
      end
  | O =>
      match matchAt re s with
      | Some st =>
          replacement ++
          match (List.length s - List.length (rest st))%nat, s with
          | _, [] => []
          | O, c :: tl => c :: replace_from re replacement 0 tl
          | S k, _ :: tl => replace_from re replacement k tl
          end
      | None =>
          match s with
          | [] => []
          | c :: tl => c :: replace_from re replacement 0 tl
          end
      end
  end.

(** Without the [g] flag only the first match is replaced. *)
Fixpoint replace_first (re : RegExp) (replacement : jsstring) (s : jsstring)
  : jsstring :=
  match matchAt re s with
  | Some st => replacement ++ rest st
  | None =>
      match s with
      | [] => []
      | c :: tl => c :: replace_first re replacement tl
      end
  end.

Definition replace (s : jsstring) (re : RegExp) (replacement : jsstring)
  : jsstring :=
  if global re
  then replace_from re replacement 0 s
  else replace_first re replacement s.

(** Whether a pattern contains the capturing group. *)
Fixpoint hasCapture (r : regex) : bool :=
  match r with
  | Capture _ => true
  | Seq a b | Alt a b => hasCapture a || hasCapture b
  | Star _ a | Lookahead a => hasCapture a
  | Empty | Chr _ | Class _ | EndOfInput => false
  end.

(** Whether a pattern is an alternative of [$], so that it matches at the
    end of the input. *)
Fixpoint acceptsEnd (r : regex) : bool :=
  match r with
  | EndOfInput | Empty => true
  | Alt a b => acceptsEnd a || acceptsEnd b
  | _ => false
  end.

(** [p] occurs at position 0 of [s], ASCII letters compared without case:
    what the literal pattern [p] matches under the [i] flag. *)
Fixpoint startsWithIgnoreCase (s p : jsstring) {struct p} : bool :=
  match p, s with
  | [], _ => true
  | _ :: _, [] => false
  | a :: p', b :: s' => (toUpper b =? toUpper a) && startsWithIgnoreCase s' p'
  end.

(** [test] holds of [s] at some position, from 0 up to the length. *)
Fixpoint anywhere (test : jsstring -> bool) (s : jsstring) : bool :=
  test s || match s with
            | [] => false
            | _ :: tl => anywhere test tl
            end.

(** Classes used by the route's patterns. *)
Definition anyChar : code_unit -> bool := fun _ => true.       (* [\s\S] *)
Definition oneOf (l : jsstring) : code_unit -> bool :=
  fun c => existsb (N.eqb c) l.

End RegExp.
Import RegExp.

(** ** Values and [JSON.parse] *)

Module Json.

(** A numeric literal denotes the rational [(-1)^negative * mantissa *
    10^exponent]; the Number value is the double nearest to it.  The route
    only ever asks whether a number is zero, which the literal decides. *)
Record number : Type :=
  { negative : bool; mantissa : N; exponent : Z }.

(** The values the route handles: what [JSON.parse] can return, and
    [undefined] for a property that is not there.  An object is kept as the
    list of its members in source order; when a key is repeated the last
    member is the property's value. *)
Inductive value : Type :=
| VUndefined
| VNull
| VBool (b : bool)
| VNumber (n : number)
| VString (s : jsstring)
| VArray (elements : list value)
| VObject (members : list (jsstring * value)).

(** The double nearest to a positive rational is 0 exactly when the
    rational is at most 2^-1075, half the least positive double. *)
Definition isZero (n : number) : bool :=
  (mantissa n =? 0)
  || ((exponent n <? 0)%Z
      && (Z.of_N (mantissa n) * 2 ^ 1075 <=? 10 ^ (- exponent n))%Z).

(** ToBoolean *)
Definition truthy (v : value) : bool :=
  match v with
  | VUndefined | VNull => false
  | VBool b => b
  | VNumber n => negb (isZero n)
  | VString s => match s with [] => false | _ :: _ => true end
  | VArray _ | VObject _ => true
  end.

(** [v === "..."], strict equality with a string. *)
Definition isString (v : value) (s : jsstring) : bool :=
  match v with
  | VString t => jsstring_eqb t s
  | _ => false
  end.

Fixpoint lookup (key : jsstring) (members : list (jsstring * value))
  : option value :=
  match members with
  | [] => None
  | (k, v) :: tl =>
      match lookup key tl with
      | Some later => Some later
      | None => if jsstring_eqb k key then Some v else None
      end
  end.

(** [v.key] for one of the keys the route reads ([range], [skill], [type],
    [result], [outputs], [text], [data], [answer]): none of them is a
    property of a built-in prototype, so the access yields [undefined] on
    every value that is not an object holding the key.  On [null] and
    [undefined] the access throws a TypeError: [None]. *)
Definition getProp (v : value) (key : jsstring) : option value :=
  match v with
  | VUndefined | VNull => None
  | VObject members =>
      Some match lookup key members with Some x => x | None => VUndefined end
  | _ => Some VUndefined
  end.

(** *** Tokens *)

Inductive token : Type :=
| TLBracket | TRBracket | TLBrace | TRBrace | TComma | TColon
| TLit (v : value).

Definition isJsonWhiteSpace (c : code_unit) : bool :=
  (c =? 0x20) || (c =? 0x09) || (c =? 0x0A) || (c =? 0x0D).

Definition isDigit (c : code_unit) : bool := (0x30 <=? c) && (c <=? 0x39).

Definition hexDigit (c : code_unit) : option N :=
  if isDigit c then Some (c - 0x30)
  else if (0x41 <=? c) && (c <=? 0x46) then Some (c - 0x41 + 10)
  else if (0x61 <=? c) && (c <=? 0x66) then Some (c - 0x61 + 10)
  else None.

Definition hex4 (a b c d : code_unit) : option code_unit :=
  match hexDigit a, hexDigit b, hexDigit c, hexDigit d with
  | Some x, Some y, Some z, Some w => Some (((x * 16 + y) * 16 + z) * 16 + w)
  | _, _, _, _ => None
  end.

(** The character an escape [\e] stands for. *)
Definition simpleEscape (e : code_unit) : option code_unit :=
  if e =? 0x22 then Some 0x22            (* \ and a double quote *)
  else if e =? 0x5C then Some 0x5C       (* \\ *)
  else if e =? 0x2F then Some 0x2F       (* \/ *)
  else if e =? 0x62 then Some 0x08       (* \b *)
  else if e =? 0x66 then Some 0x0C       (* \f *)
  else if e =? 0x6E then Some 0x0A       (* \n *)
  else if e =? 0x72 then Some 0x0D       (* \r *)
  else if e =? 0x74 then Some 0x09       (* \t *)
  else None.

Definition consTo {A} (x : A) (n : nat) (r : option (list A * nat))
  : option (list A * nat) :=
  match r with
  | Some (l, m) => Some (x :: l, (n + m)%nat)
  | None => None
  end.

(** The text of a string literal, read from just after its opening quote:
    the string's value and how many code units were read, closing quote
    included.  Control characters below U+0020 may not appear unescaped. *)
Fixpoint lexString (s : jsstring) : option (jsstring * nat) :=
  match s with
  | [] => None
  | c :: tl =>
      if c =? DQUOTE then Some ([], 1%nat)
      else if c =? BACKSLASH then
        match tl with
        | [] => None
        | e :: tl' =>
            if e =? 0x75 then                                (* \uXXXX *)
              match tl' with
              | a :: b :: c' :: d :: tl'' =>
                  match hex4 a b c' d with
                  | Some u => consTo u 6 (lexString tl'')
                  | None => None
                  end
              | _ => None
              end
            else
              match simpleEscape e with
              | Some u => consTo u 2 (lexString tl')
              | None => None
              end
        end
      else if c <? 0x20 then None
      else consTo c 1 (lexString tl)
  end.

(** The longest run of decimal digits at the head of [s], and what follows. *)
Fixpoint spanDigits (s : jsstring) : jsstring * jsstring :=
  match s with
  | c :: tl =>
      if isDigit c
      then let '(ds, r) := spanDigits tl in (c :: ds, r)
      else ([], s)
  | [] => ([], [])
  end.

Definition digitsValue (ds : jsstring) : N :=
  fold_left (fun acc d => acc * 10 + (d - 0x30)) ds 0.

(** A number literal at the head of [s]: an optional minus sign; then a
    single 0, or a digit from 1 to 9 followed by any digits; then optionally
    a point and at least one digit; then optionally e or E, an optional sign
    and at least one digit.  Returns the number and how many code units the
    literal takes. *)
Definition lexNumber (s : jsstring) : option (number * nat) :=
  let '(neg, s1) :=
    match s with
    | c :: tl => if c =? 0x2D then (true, tl) else (false, s)
    | [] => (false, s)
    end in
  let intPart :=
    match s1 with
    | d :: s2 =>
        if d =? 0x30 then Some ([d], s2)
        else if isDigit d
             then let '(ds, r) := spanDigits s2 in Some (d :: ds, r)
             else None
    | [] => None
    end in
  match intPart with
  | None => None
  | Some (ints, s3) =>
      let fracPart :=
        match s3 with
        | c :: s4 =>
            if c =? 0x2E
            then match spanDigits s4 with
                 | ([], _) => None
                 | (fs, r) => Some (fs, r)
                 end
            else Some ([], s3)
        | [] => Some ([], s3)
        end in
      match fracPart with
      | None => None
      | Some (fracs, s5) =>
          let expPart :=
            match s5 with
            | c :: s6 =>
                if (c =? 0x65) || (c =? 0x45)
                then
                  let '(eneg, s7) :=
                    match s6 with
                    | sg :: tl =>
                        if sg =? 0x2D then (true, tl)
                        else if sg =? 0x2B then (false, tl)
                        else (false, s6)
                    | [] => (false, s6)
                    end in
                  match spanDigits s7 with
                  | ([], _) => None
                  | (es, r) =>
                      let e := Z.of_N (digitsValue es) in
                      Some ((if eneg then - e else e)%Z, r)
                  end
                else Some (0%Z, s5)
            | [] => Some (0%Z, s5)
            end in
          match expPart with
          | None => None
          | Some (e, s8) =>
              Some ({| negative := neg;
                       mantissa := digitsValue (ints ++ fracs);
                       exponent := (e - Z.of_nat (List.length fracs))%Z |},
                    (List.length s - List.length s8)%nat)
          end
      end
  end.

Definition consTok (t : token) (r : option (list token))
  : option (list token) :=
  match r with
  | Some ts => Some (t :: ts)
  | None => None
  end.

(** The token sequence of a JSON text; [skip] counts the code units of the
    current token still to be passed over. *)
Fixpoint lex (skip : nat) (s : jsstring) {struct s} : option (list token) :=
  match s with
  | [] => Some []
  | c :: tl =>
      match skip with
      | S k => lex k tl
      | O =>
          if isJsonWhiteSpace c then lex 0 tl
          else if c =? 0x5B then consTok TLBracket (lex 0 tl)
          else if c =? 0x5D then consTok TRBracket (lex 0 tl)
          else if c =? 0x7B then consTok TLBrace (lex 0 tl)
          else if c =? 0x7D then consTok TRBrace (lex 0 tl)
          else if c =? 0x2C then consTok TComma (lex 0 tl)
          else if c =? 0x3A then consTok TColon (lex 0 tl)
          else if c =? DQUOTE then
            match lexString tl with
            | Some (str, n) => consTok (TLit (VString str)) (lex n tl)
            | None => None
            end
          else if startsWith s (js "null")
               then consTok (TLit VNull) (lex 3 tl)
          else if startsWith s (js "true")
               then consTok (TLit (VBool true)) (lex 3 tl)
          else if startsWith s (js "false")
               then consTok (TLit (VBool false)) (lex 4 tl)
          else
            match lexNumber s with
            | Some (num, n) => consTok (TLit (VNumber num)) (lex (n - 1) tl)
            | None => None
            end
      end
  end.

(** *** The grammar, as a pushdown automaton over tokens *)

(** An enclosing container still open: an array with the elements read so
    far, or an object with the members read so far and the key whose value
    is being read (both lists latest first). *)
Inductive frame : Type :=
| FArray (elems : list value)
| FObject (members : list (jsstring * value)) (key : jsstring).

Inductive mode : Type :=
| MValue                                          (* a value must start *)
| MArrayStart                                     (* just after [ *)
| MObjectStart                                    (* just after { *)
| MKey (members : list (jsstring * value))        (* after , in an object *)
| MColon (members : list (jsstring * value)) (key : jsstring)
| MDone (v : value).                              (* a value is complete *)

Definition startValue (stack : list frame) (t : token)
  : option (list frame * mode) :=
  match t with
  | TLit v => Some (stack, MDone v)
  | TLBracket => Some (stack, MArrayStart)
  | TLBrace => Some (stack, MObjectStart)
  | _ => None
  end.

Definition step (st : list frame * mode) (t : token)
  : option (list frame * mode) :=
  let '(stack, m) := st in
  match m with
  | MValue => startValue stack t
  | MArrayStart =>
      match t with
      | TRBracket => Some (stack, MDone (VArray []))
      | _ => startValue (FArray [] :: stack) t
      end
  | MObjectStart =>
      match t with
      | TRBrace => Some (stack, MDone (VObject []))
      | TLit (VString k) => Some (stack, MColon [] k)
      | _ => None
      end
  | MKey members =>
      match t with
      | TLit (VString k) => Some (stack, MColon members k)
      | _ => None
      end
  | MColon members k =>
      match t with
      | TColon => Some (FObject members k :: stack, MValue)
      | _ => None
      end
  | MDone v =>
      match stack, t with
      | FArray elems :: up, TComma => Some (FArray (v :: elems) :: up, MValue)
      | FArray elems :: up, TRBracket =>
          Some (up, MDone (VArray (rev (v :: elems))))
      | FObject members k :: up, TComma => Some (up, MKey ((k, v) :: members))
      | FObject members k :: up, TRBrace =>
          Some (up, MDone (VObject (rev ((k, v) :: members))))
      | _, _ => None
      end
  end.

Fixpoint run (st : list frame * mode) (ts : list token) : option value :=
  match ts with
  | [] =>
      match st with
      | ([], MDone v) => Some v
      | _ => None
      end
  | t :: ts' =>
      match step st t with
      | Some st' => run st' ts'
      | None => None
      end
  end.

(** [JSON.parse(text)]; [None] when it throws a SyntaxError. *)
Definition parse (text : jsstring) : option value :=
  match lex 0 text with
  | Some ts => run ([], MValue) ts
  | None => None
  end.

End Json.
Import Json.

(** ** The route *)

Module Route.

(** [Question] of the exam store.  [description] and [answer] always hold
    strings; the declared types of the other fields ([string[] | null],
    [SkillType], [QuestionType]) are erased at run time, where [options] is
    whatever [JSON.parse] returned and [skill] and [type] may be whatever the
    request body held, so these three are values. *)
Record Question : Type :=
  { id : jsstring;
    description : jsstring;
    options : value;
    answer : jsstring;
    skill : value;
    type : value }.

Definition MultipleChoice : jsstring := js "Multiple Choice".
Definition rowDelimiter : jsstring := js "<_>".
Definition fieldDelimiter : jsstring := js "|->".

(** *** The pattern literals of [parseDifyCSV] *)

Definition backticks : regex := Lit (js "```").

(** [/```[a-z]*\n?/gi] *)
Definition fenceOpenRe : RegExp :=
  {| pattern := Seq backticks (Seq (Star true (Class isLower)) (Opt (Chr LF)));
     ignoreCase := true; global := true |}.

(** [/```/g] *)
Definition fenceRe : RegExp :=
  {| pattern := backticks; ignoreCase := false; global := true |}.

(** [/'/g] *)
Definition quoteRe : RegExp :=
  {| pattern := Chr 0x27; ignoreCase := false; global := true |}.

(** [/[\[\]']/g] *)
Definition bracketQuoteRe : RegExp :=
  {| pattern := Class (oneOf (js "[]'"));
     ignoreCase := false; global := true |}.

(** [LABEL\s*([\s\S]*?)(?=STOP)], the shape the three label patterns share. *)
Definition labelled (label stop : regex) : regex :=
  Seq label
      (Seq (Star true (Class isWhiteSpace))
           (Seq (Capture (Star false (Class anyChar))) (Lookahead stop))).

(** [/(?:Description|1\.|2\.|3\.|4\.|5\.):\s*([\s\S]*?)(?=Options:|Answer:|$)/i] *)
Definition descRe : RegExp :=
  {| pattern :=
       labelled
         (Seq (Alt (Lit (js "Description"))
              (Alt (Lit (js "1."))
              (Alt (Lit (js "2."))
              (Alt (Lit (js "3."))
              (Alt (Lit (js "4."))
                   (Lit (js "5.")))))))
              (Chr 0x3A))
         (Alt (Lit (js "Options:")) (Alt (Lit (js "Answer:")) EndOfInput));
     ignoreCase := true; global := false |}.

(** [/Options:\s*([\s\S]*?)(?=Answer:|$)/i] *)
Definition optRe : RegExp :=
  {| pattern :=
       labelled (Lit (js "Options:")) (Alt (Lit (js "Answer:")) EndOfInput);
     ignoreCase := true; global := false |}.

(** [/Answer:\s*([\s\S]*?)(?=Skill:|Type:|$)/i] *)
Definition ansRe : RegExp :=
  {| pattern :=
       labelled (Lit (js "Answer:"))
                (Alt (Lit (js "Skill:")) (Alt (Lit (js "Type:")) EndOfInput));
     ignoreCase := true; global := false |}.

(** The labels of the description and answer patterns, read off the
    literals: where in a row they start a match. *)
Definition descriptionLabelAt (s : jsstring) : bool :=
  startsWithIgnoreCase s (js "Description:")
  || startsWithIgnoreCase s (js "1.:")
  || startsWithIgnoreCase s (js "2.:")
  || startsWithIgnoreCase s (js "3.:")
  || startsWithIgnoreCase s (js "4.:")
  || startsWithIgnoreCase s (js "5.:").

Definition answerLabelAt (s : jsstring) : bool :=
  startsWithIgnoreCase s (js "Answer:").

(** [m[1]] of a match of one of the label patterns.  Their group lies
    outside every alternative and loop, so a match always sets it (lemma
    [exec_capture1] below); the default is never used. *)
Definition at1 (m : MatchResult) : jsstring :=
  match capture1 m with
  | Some g => g
  | None => []
  end.

(** *** [parseDifyCSV] *)

(** The first statement: both fence patterns removed, then [trim]. *)
Definition cleanRaw (raw : jsstring) : jsstring :=
  trim (replace (replace raw fenceOpenRe []) fenceRe []).

Definition nonBlank (row : jsstring) : bool :=
  (0 <? List.length (trim row))%nat.

(** The rows of the cleaned text. *)
Definition splitRows (clean : jsstring) : list jsstring :=
  let rows := filter nonBlank (split clean rowDelimiter) in
  if (List.length rows <=? 1)%nat
     && includes clean fieldDelimiter
     && includes clean [LF]
  then filter (fun row => includes row fieldDelimiter) (split clean [LF])
  else rows.

Definition nonEmpty (o : jsstring) : bool := (0 <? List.length o)%nat.

(** The [catch] branch of the options clean-up. *)
Definition fallbackOptions (optionsStr : jsstring) : list jsstring :=
  filter nonEmpty
    (map trim (split (replace optionsStr bracketQuoteRe []) (js ","))).

(** The [try]/[catch] that cleans the options up; both attempts contain it
    verbatim.  (Attempt 1 writes [(optionsStr || "")], which is [optionsStr]
    for a string.) *)
Definition decodeOptions (optionsStr : jsstring) : value :=
  let sanitized := replace optionsStr quoteRe [DQUOTE] in
  match Json.parse sanitized with
  | Some decoded => decoded
  | None => VArray (map VString (fallbackOptions optionsStr))
  end.

(** The local variables of attempt 1 once [parts] is known. *)
Record Fields : Type :=
  { f_description : jsstring;
    f_optionsStr : jsstring;
    f_answer : jsstring;
    f_skill : value;
    f_type : value }.

(** [parts[i]]; every index read below is guarded by [parts.length]. *)
Definition part (parts : list jsstring) (i : nat) : jsstring := nth i parts [].

Definition fieldsOf (parts : list jsstring) (defaultSkill defaultType : value)
  : Fields :=
  let five := (5 <=? List.length parts)%nat in
  {| f_description := part parts 0;
     f_optionsStr := if five then part parts 1 else [];
     f_answer := if five then part parts 2 else part parts 1;
     f_skill := if five then VString (part parts 3) else defaultSkill;
     f_type := if five then VString (part parts 4) else defaultType |}.

Definition questionOf (uuid : jsstring) (f : Fields) : Question :=
  {| id := uuid;
     description := f_description f;
     options := if isString (f_type f) MultipleChoice
                then decodeOptions (f_optionsStr f) else VNull;
     answer := f_answer f;
     skill := f_skill f;
     type := f_type f |}.

(** Attempt 1, "standard pipe-separated parsing": the question pushed before
    the [return], or [None] when control falls through to attempt 2. *)
Definition strategyA (uuid : jsstring) (row : jsstring)
           (defaultSkill defaultType : value) : option Question :=
  if includes row fieldDelimiter then
    let parts := map trim (split row fieldDelimiter) in
    if (2 <=? List.length parts)%nat
    then Some (questionOf uuid (fieldsOf parts defaultSkill defaultType))
    else None
  else None.

(** Attempt 2, "regex-based key-value extraction (fallback)": the question
    pushed, or [None] when the row is dropped. *)
Definition strategyB (uuid : jsstring) (row : jsstring)
           (defaultSkill defaultType : value) : option Question :=
  let descMatch := exec descRe row in
  let optMatch := exec optRe row in
  let ansMatch := exec ansRe row in
  match descMatch, ansMatch with
  | Some d, Some a =>
      let options :=
        match isString defaultType MultipleChoice, optMatch with
        | true, Some o => decodeOptions (trim (at1 o))
        | _, _ => VNull
        end in
      Some {| id := uuid;
              description := trim (at1 d);
              options := if truthy options then options
                         else if isString defaultType MultipleChoice
                              then VArray [] else VNull;
              answer := trim (at1 a);
              skill := defaultSkill;
              type := defaultType |}
  | _, _ => None
  end.

(** What the [forEach] callback changes: the [questions] array and the
    number of identifiers drawn from [crypto.randomUUID] so far.  The
    generator is the sequence [randomUUID] of its successive results. *)
Record ParserState : Type :=
  { questions : list Question; drawn : nat }.

Definition push (q : Question) (st : ParserState) : ParserState :=
  {| questions := questions st ++ [q]; drawn := S (drawn st) |}.

Definition parseRow (randomUUID : nat -> jsstring)
           (defaultSkill defaultType : value)
           (st : ParserState) (row : jsstring) : ParserState :=
  match strategyA (randomUUID (drawn st)) row defaultSkill defaultType with
  | Some q => push q st
  | None =>
      match strategyB (randomUUID (drawn st)) row defaultSkill defaultType with
      | Some q => push q st
      | None => st
      end
  end.

Definition parseDifyCSV (randomUUID : nat -> jsstring) (raw : jsstring)
           (defaultSkill defaultType : value) : list Question :=
  questions
    (fold_left (parseRow randomUUID defaultSkill defaultType)
               (splitRows (cleanRaw raw))
               {| questions := []; drawn := 0 |}).

(** *** [POST] *)

(** [process.env]: a variable is a string or is not set. *)
Record Environment : Type :=
  { DIFY_HOST : option jsstring; DIFY_API_KEY : option jsstring }.

Definition unset (v : option jsstring) : bool :=          (* [!v] *)
  match v with
  | None | Some [] => true
  | Some (_ :: _) => false
  end.

(** An awaited operation returns, or throws an error with a message. *)
Inductive completion (A : Type) : Type :=
| Returned (a : A)
| Thrown (message : jsstring).
Arguments Returned {A} a.
Arguments Thrown {A} message.

(** The upstream's reply: [response.status], and what reading the body
    with [response.text()] or [response.json()] completes with. *)
Record UpstreamResponse : Type :=
  { upstreamStatus : N; bodyRead : completion jsstring }.

(** [response.ok]: the status is in the range 200 to 299. *)
Definition ok (response : UpstreamResponse) : bool :=
  (200 <=? upstreamStatus response) && (upstreamStatus response <=? 299).

(** Everything outside the handler that one invocation meets: what
    [req.json()] and [fetch] complete with, the identifier generator, and
    the messages of the errors that the engine and [NextResponse.json]
    throw.  The prompt sent upstream only reaches the upstream, whose reply
    is given here, so its text is not built; whether building it throws is
    [convertsToString] below. *)
Record World : Type :=
  { requestJson : completion value;
    fetchResult : completion UpstreamResponse;
    randomUUID : nat -> jsstring;
    typeErrorMessage : jsstring;
    syntaxErrorMessage : jsstring;
    statusErrorMessage : N -> jsstring }.

Inductive payload : Type :=
| ErrorBody (error : jsstring)
| QuestionsBody (questions : list Question) (raw : jsstring).

(** A response that [NextResponse.json] built. *)
Record NextResponse : Type := { body : payload; status : N }.

(** The statuses a response with a body may have: 200 to 599, except the
    statuses 204, 205 and 304 that go without a body. *)
Definition validStatus (code : N) : bool :=
  (200 <=? code) && (code <=? 599)
  && negb ((code =? 204) || (code =? 205) || (code =? 304)).

(** [NextResponse.json(body, { status })]; the status defaults to 200.
    The call throws for a status that a response with a body cannot have
    (a RangeError out of the range, a TypeError for 204, 205 and 304). *)
Definition NextResponse_json (w : World) (content : payload) (code : N)
  : completion NextResponse :=
  if validStatus code
  then Returned {| body := content; status := code |}
  else Thrown (statusErrorMessage w code).

(** Whether the conversion of a value to a string, as a template literal
    does it, completes.  An object is converted by its [toString]; an own
    member of that name is not callable in a value read from JSON, and
    [valueOf] then gives no primitive either, so the conversion throws a
    TypeError.  An array joins the conversions of its elements, where
    [null] gives the empty string.  The other values always convert. *)
Fixpoint convertsToString (v : value) : bool :=
  match v with
  | VArray elements => forallb convertsToString elements
  | VObject members =>
      match lookup (js "toString") members with
      | Some _ => false
      | None => true
      end
  | _ => true
  end.

(** The outside calls of one invocation, in the order made. *)
Inductive event : Type :=
| CalledUpstream                                  (* [fetch] *)
| CalledParser.                                   (* [parseDifyCSV] *)

(** [a?.key] *)
Definition optProp (a : value) (key : jsstring) : value :=
  match getProp a key with
  | Some v => v
  | None => VUndefined
  end.

Definition orElse (candidate : value) (otherwise : value) : value :=
  if truthy candidate then candidate else otherwise.

(** The [if]/[else if] chain that picks [resultString] out of [data];
    [None] when [data.result] throws because [data] is [null]. *)
Definition resultStringOf (data : value) : option value :=
  match getProp data (js "result") with
  | None => None
  | Some result =>
      let outputs := optProp data (js "outputs") in
      let inner := optProp (optProp data (js "data")) (js "outputs") in
      Some (orElse result
           (orElse (optProp outputs (js "result"))
           (orElse (optProp outputs (js "text"))
           (orElse (optProp inner (js "result"))
           (orElse (optProp inner (js "text"))
           (orElse (optProp data (js "answer"))
                   (VString [])))))))
  end.

(** The body of the [try] block, with the calls it made. *)
Definition tryBlock (w : World) : completion NextResponse * list event :=
  match requestJson w with
  | Thrown m => (Thrown m, [])
  | Returned req =>
      match getProp req (js "range"),
            getProp req (js "skill"),
            getProp req (js "type") with
      | Some range, Some skill, Some type =>
          if negb (truthy range) || negb (truthy skill) || negb (truthy type)
          then (NextResponse_json w (ErrorBody (js "Missing required fields"))
                                  400, [])
          else
            if negb (convertsToString range && convertsToString skill
                     && convertsToString type)
            then
              (* the template literal of [prompt] *)
              (Thrown (typeErrorMessage w), [])
            else
            match fetchResult w with
            | Thrown m => (Thrown m, [CalledUpstream])
            | Returned response =>
                if negb (ok response)
                then
                  match bodyRead response with
                  | Thrown m => (Thrown m, [CalledUpstream])
                  | Returned errorText =>
                      (NextResponse_json w
                         (ErrorBody (js "Dify API error: " ++ errorText))
                         (upstreamStatus response),
                       [CalledUpstream])
                  end
                else
                  match bodyRead response with
                  | Thrown m => (Thrown m, [CalledUpstream])
                  | Returned text =>
                  match Json.parse text with
                  | None => (Thrown (syntaxErrorMessage w), [CalledUpstream])
                  | Some data =>
                      match resultStringOf data with
                      | None => (Thrown (typeErrorMessage w), [CalledUpstream])
                      | Some (VString raw) =>
                          (NextResponse_json w
                             (QuestionsBody
                                (parseDifyCSV (randomUUID w) raw skill type)
                                raw)
                             200,
                           [CalledUpstream; CalledParser])
                      | Some _ =>
                          (* [raw.replace] is not a function *)
                          (Thrown (typeErrorMessage w),
                           [CalledUpstream; CalledParser])
                      end
                  end
                  end
            end
      | _, _, _ =>
          (* destructuring [null] *)
          (Thrown (typeErrorMessage w), [])
      end
  end.

Definition POST (env : Environment) (w : World) : NextResponse * list event :=
  if unset (DIFY_HOST env) || unset (DIFY_API_KEY env)
  then ({| body := ErrorBody (js "Dify configuration is missing");
           status := 500 |}, [])
  else
    match tryBlock w with
    | (Returned response, calls) => (response, calls)
    | (Thrown message, calls) =>
        ({| body := ErrorBody match message with
                              | [] => js "Internal Server Error"
                              | _ :: _ => message
                              end;
            status := 500 |}, calls)
    end.

(** *** Vocabulary of the properties *)

(** Two questions that agree in every field except [id]. *)
Definition sameFields (q1 q2 : Question) : Prop :=
  description q1 = description q2
  /\ options q1 = options q2
  /\ answer q1 = answer q2
  /\ skill q1 = skill q2
  /\ type q1 = type q2.

Definition isSquareBracket (c : code_unit) : bool := (c =? 0x5B) || (c =? 0x5D).
Definition isSingleQuote (c : code_unit) : bool := c =? 0x27.
Definition isDoubleQuote (c : code_unit) : bool := c =? 0x22.

(** [s] without the code units that [drop] selects. *)
Definition strip (drop : code_unit -> bool) (s : jsstring) : jsstring :=
  filter (fun c => negb (drop c)) s.

(** The fallback decoder as the specification words it: all bracket
    characters and all quote characters stripped, the remainder split on
    commas, each piece trimmed, empty pieces discarded.  Both quote
    characters of a list literal count as quote characters. *)
Definition fallbackAsSpecified (optionsText : jsstring) : list jsstring :=
  filter nonEmpty
    (map trim
       (split (strip (fun c => isSquareBracket c || isSingleQuote c
                               || isDoubleQuote c) optionsText)
              (js ","))).

(** What holds of the state after every row: as many identifiers were drawn
    as questions were pushed, and the question at position [k] carries the
    [k]-th identifier drawn. *)
Definition identified (rng : nat -> jsstring) (st : ParserState) : Prop :=
  drawn st = List.length (questions st)
  /\ map id (questions st) = map rng (seq 0 (List.length (questions st))).

(** The half of the options invariant that holds: a question whose type is
    not "Multiple Choice" has options null. *)
Definition optionsNullUnlessChoice (q : Question) : Prop :=
  isString (type q) MultipleChoice = false -> options q = VNull.

(** *** Vocabulary of the further properties *)

Definition isEmpty (s : jsstring) : bool :=
  match s with
  | [] => true
  | _ :: _ => false
  end.

(** A text made of white space only. *)
Definition blank (s : jsstring) : bool := forallb isWhiteSpace s.

(** The text of [s] up to the first position at which [stop] holds, or up
    to the end. *)
Fixpoint upTo (stop : jsstring -> bool) (s : jsstring) : jsstring :=
  if stop s then []
  else match s with
       | [] => []
       | c :: tl => c :: upTo stop tl
       end.

(** The text after the leftmost label of [s], where [labelLength x] is the
    length of the label that [x] starts with, if it starts with one. *)
Fixpoint afterFirst (labelLength : jsstring -> option nat) (s : jsstring)
  : option jsstring :=
  match labelLength s with
  | Some n => Some (skipn n s)
  | None =>
      match s with
      | [] => None
      | _ :: tl => afterFirst labelLength tl
      end
  end.

(** What follows the label in a label pattern. *)
Definition afterLabel (stop : regex) : regex :=
  Seq (Star true (Class isWhiteSpace))
      (Seq (Capture (Star false (Class anyChar))) (Lookahead stop)).

(** The labels and the stops of the three label patterns. *)
Definition descriptionLabel (s : jsstring) : option nat :=
  if startsWithIgnoreCase s (js "Description:") then Some 12%nat
  else if startsWithIgnoreCase s (js "1.:")
          || startsWithIgnoreCase s (js "2.:")
          || startsWithIgnoreCase s (js "3.:")
          || startsWithIgnoreCase s (js "4.:")
          || startsWithIgnoreCase s (js "5.:")
       then Some 3%nat
       else None.

Definition optionsLabel (s : jsstring) : option nat :=
  if startsWithIgnoreCase s (js "Options:") then Some 8%nat else None.

Definition answerLabel (s : jsstring) : option nat :=
  if startsWithIgnoreCase s (js "Answer:") then Some 7%nat else None.

Definition descriptionStop (s : jsstring) : bool :=
  startsWithIgnoreCase s (js "Options:")
  || startsWithIgnoreCase s (js "Answer:")
  || isEmpty s.

Definition optionsStop (s : jsstring) : bool :=
  startsWithIgnoreCase s (js "Answer:") || isEmpty s.

Definition answerStop (s : jsstring) : bool :=
  startsWithIgnoreCase s (js "Skill:")
  || startsWithIgnoreCase s (js "Type:")
  || isEmpty s.

(** The value a label pattern extracts from a row: the text after the
    leftmost label, from its first non-white-space position up to the first
    stop, trimmed. *)
Definition labelledText (labelLength : jsstring -> option nat)
           (stop : jsstring -> bool) (row : jsstring) : option jsstring :=
  option_map (fun after => trim (upTo stop (trimStart after)))
             (afterFirst labelLength row).

(** The code-fence marker. *)
Definition fence : jsstring := js "```".

(** The answer label as one writes it. *)
Definition answerText : jsstring := js "Answer:".

(** An ASCII letter, and a text without backtick. *)
Definition isLetter (c : code_unit) : bool := isLower c || isUpper c.

Definition noBacktick (s : jsstring) : bool :=
  forallb (fun c => negb (c =? 0x60)) s.

(** A text without colon. *)
Definition noColon (s : jsstring) : bool :=
  forallb (fun c => negb (c =? 0x3A)) s.

(** An option text that a quoted list literal can hold as it is: no quote of
    either kind, no backslash, no control character. *)
Definition plainOption (o : jsstring) : bool :=
  forallb (fun c => (0x20 <=? c) && negb (isSingleQuote c)
                    && negb (isDoubleQuote c) && negb (c =? BACKSLASH)) o.

(** The list literal ['o1', 'o2', ...] of the given option texts. *)
Definition quotedList (opts : list jsstring) : jsstring :=
  js "[" ++ join (js ", ") (map (fun o => js "'" ++ o ++ js "'") opts)
         ++ js "]".

(** An option text between double quotes, as the primary decode sees it,
    and the tokens of the second and later elements of a list. *)
Definition dquoted (o : jsstring) : jsstring := DQUOTE :: o ++ [DQUOTE].

Definition restTokens (os : list jsstring) : list token :=
  flat_map (fun o => [TComma; TLit (VString o)]) os.

(** What the fallback decode leaves in an option: no comma, no square
    bracket, no single quote. *)
Definition cleanOptionChar (c : code_unit) : bool :=
  negb (isSquareBracket c || isSingleQuote c || (c =? 0x2C)).

(** A question whose description and answer carry no white space at either
    end. *)
Definition fieldsTrimmed (q : Question) : Prop :=
  trim (description q) = description q /\ trim (answer q) = answer q.

End Route.
Import Route.

(** * Properties *)

(** ** Facts about the string built-ins *)

Module JsStringFacts.

Lemma jsstring_eqb_eq (a b : jsstring) : jsstring_eqb a b = true <-> a = b.
Proof.
  unfold jsstring_eqb. destruct (list_eq_dec N.eq_dec a b); split; congruence.
Qed.

Lemma jsstring_eqb_refl (a : jsstring) : jsstring_eqb a a = true.
Proof. now apply jsstring_eqb_eq. Qed.

Lemma startsWith_nil (s : jsstring) : startsWith s [] = true.
Proof. destruct s; reflexivity. Qed.

(** A string that starts with [p] is [p] followed by the rest. *)
Lemma startsWith_skipn (p s : jsstring) :
  startsWith s p = true -> s = p ++ skipn (List.length p) s.
Proof.
  revert s. induction p as [|a p IH]; intros s H.
  - reflexivity.
  - destruct s as [|b s]; simpl in H; [discriminate|].
    apply andb_true_iff in H as [Hab Hp].
    apply N.eqb_eq in Hab. subst b. simpl. f_equal. now apply IH.
Qed.

Lemma startsWith_app (p s : jsstring) : startsWith (p ++ s) p = true.
Proof.
  induction p as [|a p IH]; simpl.
  - reflexivity.
  - now rewrite N.eqb_refl, IH.
Qed.

Lemma includes_nil (s : jsstring) : includes s [] = true.
Proof. destruct s; reflexivity. Qed.

(** An occurrence in a prefix is an occurrence in the whole. *)
Lemma startsWith_app_l (s t p : jsstring) :
  startsWith s p = true -> startsWith (s ++ t) p = true.
Proof.
  revert s. induction p as [|a p IH]; intros s H.
  - apply startsWith_nil.
  - destruct s as [|b s]; simpl in *; [discriminate|].
    apply andb_true_iff in H as [-> Hp]. now rewrite IH.
Qed.

Lemma includes_app_l (s t p : jsstring) :
  includes s p = true -> includes (s ++ t) p = true.
Proof.
  induction s as [|c s IH]; intros H.
  - simpl in H. destruct p; [apply includes_nil | discriminate].
  - change (startsWith (c :: s) p || includes s p = true) in H.
    change (startsWith ((c :: s) ++ t) p || includes (s ++ t) p = true).
    apply orb_true_iff in H as [H|H]; apply orb_true_iff.
    + left. now apply startsWith_app_l.
    + right. now apply IH.
Qed.

Lemma includes_app_r (s t p : jsstring) :
  includes t p = true -> includes (s ++ t) p = true.
Proof.
  intros H. induction s as [|c s IH]; [exact H|].
  change (startsWith (c :: s ++ t) p || includes (s ++ t) p = true).
  rewrite IH. apply orb_true_r.
Qed.

(** Without an occurrence of the separator the text is the only piece. *)
Lemma split_from_absent (sep s : jsstring) :
  includes s sep = false -> split_from sep 0 s = (s, []).
Proof.
  induction s as [|c s IH]; intros H; [reflexivity|].
  change (startsWith (c :: s) sep || includes s sep = false) in H.
  apply orb_false_iff in H as [Hs Hi].
  simpl. change (match sep with
                 | [] => true
                 | a :: p' => (a =? c) && startsWith s p'
                 end) with (startsWith (c :: s) sep).
  rewrite Hs, (IH Hi). reflexivity.
Qed.

Lemma split_absent (s sep : jsstring) :
  includes s sep = false -> split s sep = [s].
Proof.
  intros H. destruct sep as [|a p].
  - now rewrite includes_nil in H.
  - unfold split. now rewrite split_from_absent.
Qed.

(** With an occurrence there are at least two pieces. *)
Lemma split_from_present (a : code_unit) (p s : jsstring) :
  includes s (a :: p) = true -> snd (split_from (a :: p) 0 s) <> [].
Proof.
  induction s as [|c s IH]; intros H; [discriminate|].
  change (startsWith (c :: s) (a :: p) || includes s (a :: p) = true) in H.
  cbn [split_from].
  destruct (startsWith (c :: s) (a :: p)) eqn:Hs.
  - destruct (split_from (a :: p) (List.length (a :: p) - 1) s). discriminate.
  - simpl in H. specialize (IH H).
    destruct (split_from (a :: p) 0 s). exact IH.
Qed.

Lemma split_present (s sep : jsstring) :
  sep <> [] -> includes s sep = true -> (2 <= List.length (split s sep))%nat.
Proof.
  intros Hsep H. destruct sep as [|a p]; [congruence|].
  unfold split. pose proof (split_from_present a p s H) as Hne.
  destruct (split_from (a :: p) 0 s) as [h t]. simpl in *.
  destruct t; [congruence | simpl; lia].
Qed.

Lemma split_two_includes (s sep : jsstring) :
  (2 <= List.length (split s sep))%nat -> sep <> [] -> includes s sep = true.
Proof.
  intros H Hsep. destruct (includes s sep) eqn:Hi; [reflexivity|].
  rewrite (split_absent _ _ Hi) in H. simpl in H. lia.
Qed.

(** The first occurrence of a one-unit separator closes the first piece. *)
Lemma split_from_one (c : code_unit) (l1 l2 : jsstring) :
  includes l1 [c] = false ->
  split_from [c] 0 (l1 ++ c :: l2)
  = (l1, let '(h, t) := split_from [c] 0 l2 in h :: t).
Proof.
  induction l1 as [|x l1 IH]; intros H.
  - simpl. rewrite N.eqb_refl. reflexivity.
  - change (startsWith (x :: l1) [c] || includes l1 [c] = false) in H.
    apply orb_false_iff in H as [Hs Hi].
    change ((x :: l1) ++ c :: l2) with (x :: (l1 ++ c :: l2)).
    cbn [split_from].
    change (startsWith (x :: l1 ++ c :: l2) [c])
      with (startsWith (x :: l1) [c]).
    rewrite Hs, (IH Hi). reflexivity.
Qed.

Lemma split_one (c : code_unit) (l1 l2 : jsstring) :
  includes l1 [c] = false ->
  split (l1 ++ c :: l2) [c] = l1 :: split l2 [c].
Proof.
  intros H. unfold split. rewrite (split_from_one c l1 l2 H). reflexivity.
Qed.

Lemma join_cons (sep : jsstring) (c : code_unit) (h : jsstring)
      (t : list jsstring) :
  join sep ((c :: h) :: t) = c :: join sep (h :: t).
Proof. destruct t; reflexivity. Qed.

Lemma split_from_join (a : code_unit) (p s : jsstring) (k : nat) :
  let '(h, t) := split_from (a :: p) k s in
  join (a :: p) (h :: t) = skipn k s.
Proof.
  revert k. induction s as [|c s IH]; intros k.
  - simpl. now destruct k.
  - destruct k as [|k].
    + cbn [split_from]. destruct (startsWith (c :: s) (a :: p)) eqn:Hs.
      * specialize (IH (List.length (a :: p) - 1)%nat).
        destruct (split_from (a :: p) (List.length (a :: p) - 1) s) as [h t].
        change (join (a :: p) ([] :: h :: t))
          with ((a :: p) ++ join (a :: p) (h :: t)).
        rewrite IH. apply startsWith_skipn in Hs.
        simpl in Hs |- *. rewrite Nat.sub_0_r. symmetry. exact Hs.
      * specialize (IH 0%nat).
        destruct (split_from (a :: p) 0 s) as [h t].
        rewrite join_cons, IH. reflexivity.
    + cbn [split_from]. apply IH.
Qed.

(** Joining the pieces with the separator gives the text back: [split]
    loses nothing and invents nothing. *)
Lemma join_split (s sep : jsstring) :
  sep <> [] -> join sep (split s sep) = s.
Proof.
  intros Hsep. destruct sep as [|a p]; [congruence|].
  unfold split. pose proof (split_from_join a p s 0) as H.
  destruct (split_from (a :: p) 0 s). exact H.
Qed.

End JsStringFacts.
Import JsStringFacts.

(** ** Facts about the matcher *)

Module RegExpFacts.

Lemma pick_none_iff (g : bool) (again again' stop stop' : option mstate) :
  (again = None <-> again' = None) ->
  (stop = None <-> stop' = None) ->
  ((if g
    then match again with Some res => Some res | None => stop end
    else match stop with Some res => Some res | None => again end) = None
   <->
   (if g
    then match again' with Some res => Some res | None => stop' end
    else match stop' with Some res => Some res | None => again' end) = None).
Proof.
  intros Ha Hs. destruct g, again, again', stop, stop'; intuition congruence.
Qed.

(** Whether a match fails depends on the continuation only through the
    states at which the continuation fails. *)
Lemma starLoop_none_iff
      (body : mstate -> (mstate -> option mstate) -> option mstate)
      (g : bool) (k k' : mstate -> option mstate) :
  (forall st c c', (forall x, c x = None <-> c' x = None) ->
                   (body st c = None <-> body st c' = None)) ->
  (forall x, k x = None <-> k' x = None) ->
  forall n st, starLoop body g k n st = None <-> starLoop body g k' n st = None.
Proof.
  intros Hbody Hk. induction n as [|n IH]; intros st.
  - exact (pick_none_iff g None None (k st) (k' st)
                          (conj (fun _ => eq_refl) (fun _ => eq_refl)) (Hk st)).
  - refine (pick_none_iff g _ _ (k st) (k' st) _ (Hk st)).
    apply Hbody. intros x.
    destruct (List.length (rest x) <? List.length (rest st))%nat;
      [apply IH | tauto].
Qed.

Lemma matcher_none_iff (ic : bool) (r : regex) :
  forall st k k',
    (forall x, k x = None <-> k' x = None) ->
    (matcher ic r st k = None <-> matcher ic r st k' = None).
Proof.
  induction r as [| c | member | a IHa b IHb | a IHa b IHb | g a IHa
                 | a IHa | a IHa |]; intros st k k' Hk; cbn [matcher].
  - apply Hk.
  - destruct (rest st) as [|ch tl]; [tauto|].
    destruct (Canonicalize ic ch =? Canonicalize ic c); [apply Hk | tauto].
  - destruct (rest st) as [|ch tl]; [tauto|].
    destruct (classAccepts ic member ch); [apply Hk | tauto].
  - apply IHa. intros x. now apply IHb.
  - specialize (IHa st k k' Hk). specialize (IHb st k k' Hk).
    destruct (matcher ic a st k), (matcher ic a st k');
      intuition congruence.
  - apply starLoop_none_iff; [|exact Hk]. intros; now apply IHa.
  - apply IHa. intros x. apply Hk.
  - destruct (matcher ic a st Some); [apply Hk | tauto].
  - destruct (rest st); [apply Hk | tauto].
Qed.

(** A successful match is a success of the continuation, at a state whose
    capture is the starting one unless the pattern holds the group. *)
Lemma starLoop_result
      (body : mstate -> (mstate -> option mstate) -> option mstate)
      (g : bool) (k : mstate -> option mstate) (keeps : Prop) :
  (forall st c res, body st c = Some res ->
     exists st', c st' = Some res /\ (keeps -> group1 st' = group1 st)) ->
  forall n st res,
    starLoop body g k n st = Some res ->
    exists st', k st' = Some res /\ (keeps -> group1 st' = group1 st).
Proof.
  intros Hbody. induction n as [|n IH]; intros st res H.
  - simpl in H. exists st. split; [|reflexivity].
    destruct g; [exact H | destruct (k st); congruence].
  - cbn [starLoop] in H.
    match type of H with
    | context [body st ?c] =>
        assert (Hagain : forall r, body st c = Some r ->
                  exists st', k st' = Some r /\ (keeps -> group1 st' = group1 st))
    end.
    { intros r Hr. apply Hbody in Hr as (x & Hx & Hkeep).
      destruct (List.length (rest x) <? List.length (rest st))%nat;
        [|discriminate].
      apply IH in Hx as (y & Hy & Hkeep'). exists y. split; [exact Hy|].
      intros Hp. now rewrite Hkeep', Hkeep. }
    destruct g.
    + destruct (body st _) as [r|] eqn:E.
      * inversion H; subst. now apply Hagain.
      * exists st. now split.
    + destruct (k st) as [r|] eqn:E.
      * inversion H; subst. exists st. now split.
      * now apply Hagain.
Qed.

Lemma matcher_result (ic : bool) (r : regex) :
  forall st k res,
    matcher ic r st k = Some res ->
    exists st', k st' = Some res
                /\ (hasCapture r = false -> group1 st' = group1 st).
Proof.
  induction r as [| c | member | a IHa b IHb | a IHa b IHb | g a IHa
                 | a IHa | a IHa |]; intros st k res H; cbn [matcher] in H.
  - exists st. now split.
  - destruct (rest st) as [|ch tl]; [discriminate|].
    destruct (Canonicalize ic ch =? Canonicalize ic c); [|discriminate].
    eexists. split; [exact H | reflexivity].
  - destruct (rest st) as [|ch tl]; [discriminate|].
    destruct (classAccepts ic member ch); [|discriminate].
    eexists. split; [exact H | reflexivity].
  - apply IHa in H as (x & Hx & Ka). apply IHb in Hx as (y & Hy & Kb).
    exists y. split; [exact Hy|]. cbn [hasCapture]. intros Hc.
    apply orb_false_iff in Hc as [Hc1 Hc2]. now rewrite Kb, Ka.
  - cbn [hasCapture]. destruct (matcher ic a st k) as [r|] eqn:E.
    + inversion H; subst. apply IHa in E as (x & Hx & Ka).
      exists x. split; [exact Hx|]. intros Hc.
      apply orb_false_iff in Hc as [Hc1 Hc2]. now apply Ka.
    + apply IHb in H as (x & Hx & Kb).
      exists x. split; [exact Hx|]. intros Hc.
      apply orb_false_iff in Hc as [Hc1 Hc2]. now apply Kb.
  - cbn [hasCapture].
    apply (starLoop_result (matcher ic a) g k (hasCapture a = false))
      with (n := List.length (rest st)); [|exact H].
    intros st0 c res0 H0. now apply IHa.
  - apply IHa in H as (x & Hx & _). eexists. split; [exact Hx|].
    cbn [hasCapture]. discriminate.
  - destruct (matcher ic a st Some) as [x|] eqn:E; [|discriminate].
    eexists. split; [exact H|]. cbn [hasCapture group1]. intros Hc.
    apply IHa in E as (y & Hy & Ka). inversion Hy; subst. now apply Ka.
  - destruct (rest st); [|discriminate]. exists st. now split.
Qed.

(** A match of a label pattern has set group 1. *)
Lemma labelled_sets_group1 (ic : bool) (label stop : regex) (st res : mstate) :
  hasCapture stop = false ->
  matcher ic (labelled label stop) st Some = Some res ->
  exists g, group1 res = Some g.
Proof.
  intros Hstop H. unfold labelled in H. cbn [matcher] in H.
  apply matcher_result in H as (st1 & H & _).
  change (starLoop (matcher ic (Class isWhiteSpace)) true
            (fun st' => matcher ic (Capture (Star false (Class anyChar))) st'
                          (fun st'' => matcher ic (Lookahead stop) st'' Some))
            (List.length (rest st1)) st1 = Some res) in H.
  apply (starLoop_result _ _ _ False) in H as (st2 & H & _);
    [|intros ? ? ? Hb; apply matcher_result in Hb as (x & Hx & _);
      exists x; split; [exact Hx | tauto]].
  cbn [matcher] in H.
  apply (starLoop_result _ _ _ False) in H as (st3 & H & _);
    [|intros st0 c0 res0 Hb;
      destruct (matcher_result ic (Class anyChar) st0 c0 res0 Hb)
        as (x & Hx & _);
      exists x; split; [exact Hx | tauto]].
  destruct (matcher ic stop _ Some) as [st4|] eqn:E; [|discriminate].
  inversion H; subst res. cbn [group1].
  apply matcher_result in E as (y & Hy & Keep). inversion Hy; subst y.
  rewrite (Keep Hstop). cbn [group1]. eexists. reflexivity.
Qed.

Lemma exec_capture1 (re : RegExp) (label stop : regex) :
  pattern re = labelled label stop ->
  hasCapture stop = false ->
  forall row m, exec re row = Some m -> exists g, capture1 m = Some g.
Proof.
  intros Hp Hstop. induction row as [|c row IH]; intros m H;
    cbn [exec] in H; unfold matchAt in H; rewrite Hp in H.
  - destruct (matcher (ignoreCase re) (labelled label stop) _ Some) eqn:E;
      [|discriminate].
    inversion H; subst m. cbn [capture1].
    now apply labelled_sets_group1 in E.
  - destruct (matcher (ignoreCase re) (labelled label stop) _ Some) eqn:E.
    + inversion H; subst m. cbn [capture1].
      now apply labelled_sets_group1 in E.
    + now apply IH.
Qed.

(** Under the [i] flag a literal matches where it occurs without regard to
    ASCII case, and consumes its length. *)
Lemma matcher_Lit (p : jsstring) :
  forall st k,
    matcher true (Lit p) st k
    = if startsWithIgnoreCase (rest st) p
      then k (MState (skipn (List.length p) (rest st)) (group1 st))
      else None.
Proof.
  induction p as [|a p IH]; intros [s g] k.
  - reflexivity.
  - cbn [Lit matcher rest group1]. destruct s as [|b s]; [reflexivity|].
    cbn [startsWithIgnoreCase Canonicalize].
    destruct (toUpper b =? toUpper a); [|reflexivity].
    rewrite IH. reflexivity.
Qed.

Lemma startsWithIgnoreCase_app (p q : jsstring) :
  forall s,
    startsWithIgnoreCase s (p ++ q)
    = startsWithIgnoreCase s p
      && startsWithIgnoreCase (skipn (List.length p) s) q.
Proof.
  induction p as [|a p IH]; intros s.
  - reflexivity.
  - destruct s as [|b s]; [reflexivity|].
    cbn [app startsWithIgnoreCase List.length skipn].
    rewrite IH. apply andb_assoc.
Qed.

Lemma alt_none (x y : option mstate) :
  match x with Some res => Some res | None => y end = None
  <-> x = None /\ y = None.
Proof. destruct x, y; intuition congruence. Qed.

(** A literal followed by one more pattern character is the longer literal. *)
Lemma matcher_Lit_Chr (p : jsstring) (c : code_unit) (st : mstate) :
  matcher true (Lit p) st (fun st' => matcher true (Chr c) st' Some) = None
  <-> startsWithIgnoreCase (rest st) (p ++ [c]) = false.
Proof.
  rewrite matcher_Lit, startsWithIgnoreCase_app.
  destruct (startsWithIgnoreCase (rest st) p); [|tauto].
  cbn [matcher rest andb].
  destruct (skipn (List.length p) (rest st)) as [|b s]; [tauto|].
  cbn [startsWithIgnoreCase Canonicalize].
  destruct (toUpper b =? toUpper c); cbn; split; congruence.
Qed.

(** A pattern that has [$] among its alternatives matches at the end. *)
Lemma acceptsEnd_at_end (ic : bool) (r : regex) :
  forall st k,
    acceptsEnd r = true -> rest st = [] -> k st <> None ->
    matcher ic r st k <> None.
Proof.
  induction r as [| c | member | a IHa b IHb | a IHa b IHb | g a IHa
                 | a IHa | a IHa |]; intros st k Hr Hst Hk;
    cbn [acceptsEnd] in Hr; try discriminate; cbn [matcher].
  - exact Hk.
  - destruct (matcher ic a st k) eqn:E; [discriminate|].
    apply orb_true_iff in Hr as [Hr|Hr].
    + exfalso. now apply (IHa st k Hr Hst Hk).
    + now apply IHb.
  - now rewrite Hst.
Qed.

(** The lazy [[\s\S]*?] always finds a stopping point when the end of the
    input is one. *)
Lemma lazy_any_total (ic : bool) (k : mstate -> option mstate) :
  (forall st, rest st = [] -> k st <> None) ->
  forall n st, List.length (rest st) = n ->
               starLoop (matcher ic (Class anyChar)) false k n st <> None.
Proof.
  intros Hk. induction n as [|n IH]; intros [s g] Hn; cbn [rest] in Hn.
  - destruct s; [|discriminate]. simpl.
    specialize (Hk (MState [] g) eq_refl). now destruct (k _).
  - destruct s as [|c s]; [discriminate|]. injection Hn as Hn.
    cbn [starLoop]. destruct (k _); [discriminate|].
    cbn [matcher rest]. unfold classAccepts, anyChar at 1. cbn [orb rest].
    replace (List.length s <? List.length (c :: s))%nat with true
      by (symmetry; apply Nat.ltb_lt; simpl; lia).
    now apply IH.
Qed.

Lemma greedy_total
      (body : mstate -> (mstate -> option mstate) -> option mstate)
      (k : mstate -> option mstate) :
  (forall st, k st <> None) ->
  forall n st, starLoop body true k n st <> None.
Proof.
  intros Hk n st. specialize (Hk st).
  destruct n; cbn [starLoop]; [exact Hk|]. now destruct (body st _).
Qed.

(** So a label pattern matches at a position exactly when its label does. *)
Lemma labelled_none_iff (ic : bool) (label stop : regex) (st : mstate) :
  acceptsEnd stop = true ->
  (matcher ic (labelled label stop) st Some = None
   <-> matcher ic label st Some = None).
Proof.
  intros Hstop. unfold labelled. cbn [matcher].
  apply matcher_none_iff. intros x. split; [|discriminate].
  intros H. exfalso. revert H. apply greedy_total. clear x. intros x.
  apply lazy_any_total; [|reflexivity].
  intros y Hy. destruct (matcher ic stop _ Some) eqn:E; [discriminate|].
  exfalso. revert E. now apply acceptsEnd_at_end.
Qed.

Lemma anywhere_ext (f g : jsstring -> bool) :
  (forall x, f x = g x) -> forall s, anywhere f s = anywhere g s.
Proof.
  intros H. induction s as [|c s IH]; cbn [anywhere]; rewrite H;
    [reflexivity | now rewrite IH].
Qed.

(** [s.match(re)] fails exactly when no position allows a match. *)
Lemma exec_none_iff (re : RegExp) (test : jsstring -> bool) :
  (forall x, matchAt re x = None <-> test x = false) ->
  forall s, exec re s = None <-> anywhere test s = false.
Proof.
  intros H. induction s as [|c s IH]; cbn [exec anywhere].
  - specialize (H []). destruct (matchAt re []);
      rewrite orb_false_r; intuition congruence.
  - specialize (H (c :: s)). rewrite orb_false_iff.
    destruct (matchAt re (c :: s)); intuition congruence.
Qed.

(** Where the description pattern and the answer pattern match. *)
Lemma descRe_matchAt (x : jsstring) :
  matchAt descRe x = None <-> descriptionLabelAt x = false.
Proof.
  unfold matchAt. cbn [descRe pattern ignoreCase].
  rewrite labelled_none_iff by reflexivity.
  cbn [matcher]. rewrite !alt_none.
  change (fun st' : mstate =>
            match rest st' with
            | [] => None
            | ch :: tl =>
                if Canonicalize true ch =? Canonicalize true 58
                then Some {| rest := tl; group1 := group1 st' |}
                else None
            end)
    with (fun st' => matcher true (Chr 0x3A) st' Some).
  rewrite !matcher_Lit_Chr. cbn [rest].
  unfold descriptionLabelAt. rewrite !orb_false_iff.
  change (js "Description" ++ [58]) with (js "Description:").
  change (js "1." ++ [58]) with (js "1.:").
  change (js "2." ++ [58]) with (js "2.:").
  change (js "3." ++ [58]) with (js "3.:").
  change (js "4." ++ [58]) with (js "4.:").
  change (js "5." ++ [58]) with (js "5.:").
  tauto.
Qed.

Lemma ansRe_matchAt (x : jsstring) :
  matchAt ansRe x = None <-> answerLabelAt x = false.
Proof.
  unfold matchAt. cbn [ansRe pattern ignoreCase].
  rewrite labelled_none_iff by reflexivity.
  rewrite matcher_Lit. unfold answerLabelAt. cbn [rest].
  destruct (startsWithIgnoreCase x (js "Answer:")); split; congruence.
Qed.

Lemma exec_descRe (row : jsstring) :
  exec descRe row = None <-> anywhere descriptionLabelAt row = false.
Proof. apply exec_none_iff, descRe_matchAt. Qed.

Lemma exec_ansRe (row : jsstring) :
  exec ansRe row = None <-> anywhere answerLabelAt row = false.
Proof. apply exec_none_iff, ansRe_matchAt. Qed.

End RegExpFacts.
Import RegExpFacts.

(** ** The parser *)

Module ParserFacts.

(** *** Attempt 1 *)

Lemma part_map_trim (ps : list jsstring) (i : nat) (p : jsstring) :
  nth_error ps i = Some p -> part (map trim ps) i = trim p.
Proof.
  unfold part. revert i. induction ps as [|x ps IH]; intros [|i] H;
    simpl in *; try discriminate.
  - now inversion H.
  - now apply IH.
Qed.

(** Attempt 1 succeeds exactly on the rows that hold the field delimiter. *)
Lemma strategyA_includes (uuid row : jsstring) (dS dT : value) :
  strategyA uuid row dS dT
  = if includes row fieldDelimiter
    then Some (questionOf uuid
                 (fieldsOf (map trim (split row fieldDelimiter)) dS dT))
    else None.
Proof.
  unfold strategyA. destruct (includes row fieldDelimiter) eqn:Hi;
    [|reflexivity].
  assert (Hlen : (2 <= List.length (split row fieldDelimiter))%nat)
    by (apply split_present; [discriminate | exact Hi]).
  rewrite length_map.
  destruct (Nat.leb_spec 2 (List.length (split row fieldDelimiter)));
    [reflexivity | lia].
Qed.

Lemma parseRow_strategyA (rng : nat -> jsstring) (dS dT : value)
      (st : ParserState) (row : jsstring) (q : Question) :
  strategyA (rng (drawn st)) row dS dT = Some q ->
  parseRow rng dS dT st row = push q st.
Proof. intros H. unfold parseRow. now rewrite H. Qed.

(** C1.  A row that splits on the field delimiter into at least five parts
    is parsed by attempt 1 into the question whose description, answer,
    skill and type are parts 0, 2, 3 and 4, trimmed; its options text is
    part 1, trimmed, which is decoded when the type is "Multiple Choice".
    That question is what the row adds to the output. *)
Theorem strategyA_five_parts
        (rng : nat -> jsstring) (st : ParserState) (row : jsstring)
        (dS dT : value) (p0 p1 p2 p3 p4 : jsstring) (more : list jsstring) :
  split row fieldDelimiter = p0 :: p1 :: p2 :: p3 :: p4 :: more ->
  let f := fieldsOf (map trim (split row fieldDelimiter)) dS dT in
  let q := {| id := rng (drawn st);
              description := trim p0;
              options := if jsstring_eqb (trim p4) MultipleChoice
                         then decodeOptions (trim p1) else VNull;
              answer := trim p2;
              skill := VString (trim p3);
              type := VString (trim p4) |} in
  f = {| f_description := trim p0; f_optionsStr := trim p1;
         f_answer := trim p2; f_skill := VString (trim p3);
         f_type := VString (trim p4) |}
  /\ strategyA (rng (drawn st)) row dS dT = Some q
  /\ parseRow rng dS dT st row = push q st.
Proof.
  intros Hsplit f q.
  assert (Hf : f = {| f_description := trim p0; f_optionsStr := trim p1;
                      f_answer := trim p2; f_skill := VString (trim p3);
                      f_type := VString (trim p4) |}).
  { subst f. rewrite Hsplit. reflexivity. }
  assert (HA : strategyA (rng (drawn st)) row dS dT = Some q).
  { rewrite strategyA_includes.
    rewrite split_two_includes;
      [| rewrite Hsplit; simpl; lia | discriminate].
    fold f. rewrite Hf. reflexivity. }
  split; [exact Hf|]. split; [exact HA|]. now apply parseRow_strategyA.
Qed.

Lemma strategyA_five_parts_witness :
  let row := js " Q1 |->['a','b']|-> a |->Math|->Multiple Choice|->extra" in
  strategyA (js "id-0") row (VString (js "Reading")) (VString (js "Essay"))
  = Some {| id := js "id-0";
            description := js "Q1";
            options := VArray [VString (js "a"); VString (js "b")];
            answer := js "a";
            skill := VString (js "Math");
            type := VString (js "Multiple Choice") |}.
Proof.
  intros row.
  exact (proj1 (proj2
    (strategyA_five_parts (fun _ => js "id-0")
       {| questions := []; drawn := 0 |} row
       (VString (js "Reading")) (VString (js "Essay"))
       (js " Q1 ") (js "['a','b']") (js " a ") (js "Math")
       (js "Multiple Choice") [js "extra"] eq_refl))).
Defined.

(** C5.  A row that splits into two, three or four parts is parsed by
    attempt 1 with part 0 as description, part 1 as answer, the caller's
    defaults as skill and type, and the empty string as options text, whose
    decoding is the empty list. *)
Theorem strategyA_two_to_four_parts
        (rng : nat -> jsstring) (st : ParserState) (row : jsstring)
        (dS dT : value) (p0 p1 : jsstring) (more : list jsstring) :
  split row fieldDelimiter = p0 :: p1 :: more ->
  (List.length more <= 2)%nat ->
  let f := fieldsOf (map trim (split row fieldDelimiter)) dS dT in
  let q := {| id := rng (drawn st);
              description := trim p0;
              options := if isString dT MultipleChoice
                         then VArray [] else VNull;
              answer := trim p1;
              skill := dS;
              type := dT |} in
  f = {| f_description := trim p0; f_optionsStr := [];
         f_answer := trim p1; f_skill := dS; f_type := dT |}
  /\ decodeOptions (f_optionsStr f) = VArray []
  /\ strategyA (rng (drawn st)) row dS dT = Some q
  /\ parseRow rng dS dT st row = push q st.
Proof.
  intros Hsplit Hmore f q.
  assert (Hf : f = {| f_description := trim p0; f_optionsStr := [];
                      f_answer := trim p1; f_skill := dS; f_type := dT |}).
  { subst f. rewrite Hsplit. unfold fieldsOf.
    replace (5 <=? List.length (map trim (p0 :: p1 :: more)))%nat with false.
    - reflexivity.
    - symmetry. apply Nat.leb_gt. rewrite length_map. simpl. lia. }
  assert (HA : strategyA (rng (drawn st)) row dS dT = Some q).
  { rewrite strategyA_includes.
    rewrite split_two_includes;
      [| rewrite Hsplit; simpl; lia | discriminate].
    fold f. rewrite Hf. reflexivity. }
  split; [exact Hf|]. split; [now rewrite Hf|].
  split; [exact HA|]. now apply parseRow_strategyA.
Qed.

Lemma strategyA_two_to_four_parts_witness :
  let row := js "Q2 |-> Opt C |-> ignored" in
  strategyA (js "id-0") row (VString (js "Reading"))
            (VString (js "Multiple Choice"))
  = Some {| id := js "id-0";
            description := js "Q2";
            options := VArray [];
            answer := js "Opt C";
            skill := VString (js "Reading");
            type := VString (js "Multiple Choice") |}.
Proof.
  intros row.
  exact (proj1 (proj2 (proj2
    (strategyA_two_to_four_parts (fun _ => js "id-0")
       {| questions := []; drawn := 0 |} row
       (VString (js "Reading")) (VString (js "Multiple Choice"))
       (js "Q2 ") (js " Opt C ") [js " ignored"] eq_refl
       (le_S _ _ (le_n 1)))))).
Defined.

(** C10.  A row that holds the field delimiter splits into at least two
    parts, so attempt 1 returns a question and the row adds exactly that one
    question to the output: attempt 2 is not reached and the row is not
    dropped. *)
Theorem delimited_row_always_parsed
        (rng : nat -> jsstring) (st : ParserState) (row : jsstring)
        (dS dT : value) :
  includes row fieldDelimiter = true ->
  (2 <= List.length (split row fieldDelimiter))%nat
  /\ exists q,
       strategyA (rng (drawn st)) row dS dT = Some q
       /\ parseRow rng dS dT st row = push q st
       /\ questions (parseRow rng dS dT st row) = questions st ++ [q].
Proof.
  intros Hi. split.
  - apply split_present; [discriminate | exact Hi].
  - rewrite strategyA_includes, Hi. eexists. split; [reflexivity|].
    assert (HA : strategyA (rng (drawn st)) row dS dT
                 = Some (questionOf (rng (drawn st))
                           (fieldsOf (map trim (split row fieldDelimiter))
                                     dS dT)))
      by now rewrite strategyA_includes, Hi.
    rewrite (parseRow_strategyA _ _ _ _ _ _ HA). split; reflexivity.
Qed.

Lemma delimited_row_always_parsed_witness :
  (2 <= List.length (split (js "|->") fieldDelimiter))%nat
  /\ exists q,
       strategyA (js "id-3") (js "|->") VNull VNull = Some q
       /\ parseRow (fun _ => js "id-3") VNull VNull
                   {| questions := []; drawn := 3 |} (js "|->")
          = push q {| questions := []; drawn := 3 |}
       /\ questions (parseRow (fun _ => js "id-3") VNull VNull
                              {| questions := []; drawn := 3 |} (js "|->"))
          = [] ++ [q].
Proof.
  exact (delimited_row_always_parsed (fun _ => js "id-3")
           {| questions := []; drawn := 3 |} (js "|->") VNull VNull eq_refl).
Defined.

(** *** The row splitter *)

(** C4.  When the split on the row delimiter leaves at most one non-blank
    row and the text holds both the field delimiter and a newline, the rows
    are the lines that hold the field delimiter.  In particular a text
    without row delimiter made of two lines that each hold the field
    delimiter gives those two lines, in order. *)
Theorem splitRows_line_fallback :
  (forall clean : jsstring,
      (List.length (filter nonBlank (split clean rowDelimiter)) <= 1)%nat ->
      includes clean fieldDelimiter = true ->
      includes clean [LF] = true ->
      splitRows clean
      = filter (fun row => includes row fieldDelimiter) (split clean [LF]))
  /\ (forall l1 l2 : jsstring,
         includes (l1 ++ LF :: l2) rowDelimiter = false ->
         includes l1 [LF] = false ->
         includes l2 [LF] = false ->
         includes l1 fieldDelimiter = true ->
         includes l2 fieldDelimiter = true ->
         splitRows (l1 ++ LF :: l2) = [l1; l2]).
Proof.
  assert (General : forall clean : jsstring,
      (List.length (filter nonBlank (split clean rowDelimiter)) <= 1)%nat ->
      includes clean fieldDelimiter = true ->
      includes clean [LF] = true ->
      splitRows clean
      = filter (fun row => includes row fieldDelimiter) (split clean [LF])).
  { intros clean Hrows Hfd Hlf. unfold splitRows.
    apply Nat.leb_le in Hrows. now rewrite Hrows, Hfd, Hlf. }
  split; [exact General|].
  intros l1 l2 Hrd H1 H2 Hf1 Hf2.
  rewrite General.
  - rewrite (split_one LF l1 l2 H1), (split_absent l2 [LF] H2).
    cbn [filter]. now rewrite Hf1, Hf2.
  - rewrite (split_absent _ _ Hrd). cbn [filter].
    destruct (nonBlank _); simpl; lia.
  - now apply includes_app_l.
  - apply includes_app_r. reflexivity.
Qed.

Lemma splitRows_line_fallback_witness :
  splitRows (js "a|->b" ++ LF :: js "c|->d|->e")
  = [js "a|->b"; js "c|->d|->e"]
  /\ splitRows (js "note" ++ [LF] ++ js "a|->b" ++ [LF] ++ js "c|->d")
     = [js "a|->b"; js "c|->d"].
Proof.
  split.
  - exact (proj2 splitRows_line_fallback (js "a|->b") (js "c|->d|->e")
             eq_refl eq_refl eq_refl eq_refl eq_refl).
  - exact (proj1 splitRows_line_fallback
             (js "note" ++ [LF] ++ js "a|->b" ++ [LF] ++ js "c|->d")
             (le_n 1) eq_refl eq_refl).
Defined.

(** *** Identifiers *)

Lemma sameFields_refl_fields (u1 u2 d a : jsstring) (o s t : value) :
  sameFields
    {| id := u1; description := d; options := o; answer := a;
       skill := s; type := t |}
    {| id := u2; description := d; options := o; answer := a;
       skill := s; type := t |}.
Proof. repeat split. Qed.

(** A row's fate does not depend on the identifier it would be given. *)
Lemma strategyA_any_uuid (u1 u2 row : jsstring) (dS dT : value) :
  match strategyA u1 row dS dT, strategyA u2 row dS dT with
  | Some q1, Some q2 => sameFields q1 q2
  | None, None => True
  | _, _ => False
  end.
Proof.
  rewrite !strategyA_includes.
  destruct (includes row fieldDelimiter); [|exact I].
  apply sameFields_refl_fields.
Qed.

Lemma strategyB_any_uuid (u1 u2 row : jsstring) (dS dT : value) :
  match strategyB u1 row dS dT, strategyB u2 row dS dT with
  | Some q1, Some q2 => sameFields q1 q2
  | None, None => True
  | _, _ => False
  end.
Proof.
  unfold strategyB.
  destruct (exec descRe row); [|exact I].
  destruct (exec ansRe row); [|exact I].
  apply sameFields_refl_fields.
Qed.

Lemma parseRow_any_uuid (g1 g2 : nat -> jsstring) (dS dT : value)
      (st1 st2 : ParserState) (row : jsstring) :
  Forall2 sameFields (questions st1) (questions st2) ->
  Forall2 sameFields (questions (parseRow g1 dS dT st1 row))
                     (questions (parseRow g2 dS dT st2 row)).
Proof.
  intros H. unfold parseRow.
  pose proof (strategyA_any_uuid (g1 (drawn st1)) (g2 (drawn st2)) row dS dT)
    as HA.
  pose proof (strategyB_any_uuid (g1 (drawn st1)) (g2 (drawn st2)) row dS dT)
    as HB.
  destruct (strategyA (g1 (drawn st1)) row dS dT),
           (strategyA (g2 (drawn st2)) row dS dT); try contradiction.
  - cbn [push questions]. apply Forall2_app; [exact H | now constructor].
  - destruct (strategyB (g1 (drawn st1)) row dS dT),
             (strategyB (g2 (drawn st2)) row dS dT); try contradiction.
    + cbn [push questions]. apply Forall2_app; [exact H | now constructor].
    + exact H.
Qed.

Lemma fold_parseRow_any_uuid (g1 g2 : nat -> jsstring) (dS dT : value)
      (rows : list jsstring) :
  forall st1 st2,
    Forall2 sameFields (questions st1) (questions st2) ->
    Forall2 sameFields
      (questions (fold_left (parseRow g1 dS dT) rows st1))
      (questions (fold_left (parseRow g2 dS dT) rows st2)).
Proof.
  induction rows as [|row rows IH]; intros st1 st2 H; cbn [fold_left].
  - exact H.
  - apply IH. now apply parseRow_any_uuid.
Qed.

(** C8.  Two runs of the parser on the same text and defaults, whatever
    identifiers the generator hands out in each, give question lists of the
    same length that agree, position by position, in description, options,
    answer, skill and type. *)
Theorem parse_twice_same_fields
        (g1 g2 : nat -> jsstring) (raw : jsstring) (dS dT : value) :
  List.length (parseDifyCSV g1 raw dS dT)
  = List.length (parseDifyCSV g2 raw dS dT)
  /\ Forall2 sameFields (parseDifyCSV g1 raw dS dT)
                        (parseDifyCSV g2 raw dS dT).
Proof.
  assert (H : Forall2 sameFields (parseDifyCSV g1 raw dS dT)
                                 (parseDifyCSV g2 raw dS dT)).
  { unfold parseDifyCSV. apply fold_parseRow_any_uuid. constructor. }
  split; [|exact H]. exact (Forall2_length H).
Qed.

(** *** The options clean-up *)

(** Replacing a pattern that matches single code units is a code-unit-wise
    substitution. *)
Lemma replace_single (re : RegExp) (rep : jsstring) (test : code_unit -> bool) :
  global re = true ->
  matchAt re [] = None ->
  (forall c tl, matchAt re (c :: tl)
                = if test c then Some (MState tl None) else None) ->
  forall s, replace s re rep = flat_map (fun c => if test c then rep else [c]) s.
Proof.
  intros Hg Hnil Hcons. unfold replace. rewrite Hg.
  induction s as [|c s IH]; cbn [replace_from flat_map].
  - now rewrite Hnil.
  - rewrite Hcons. destruct (test c).
    + cbn [rest]. replace (List.length (c :: s) - List.length s)%nat with 1%nat
        by (cbn [List.length]; lia).
      now rewrite IH.
    + now rewrite IH.
Qed.

(** The replacement that prepares the primary decode turns every single
    quote into a double quote and changes nothing else. *)
Lemma replace_quoteRe (s : jsstring) :
  replace s quoteRe [DQUOTE]
  = map (fun c => if isSingleQuote c then DQUOTE else c) s.
Proof.
  rewrite (replace_single quoteRe [DQUOTE] isSingleQuote).
  - induction s as [|c s IH]; cbn [flat_map map]; [reflexivity|].
    rewrite IH. now destruct (isSingleQuote c).
  - reflexivity.
  - reflexivity.
  - intros c tl. reflexivity.
Qed.

(** [optionsStr.replace(/[\[\]']/g, "")] removes every square bracket and
    every single quote and changes nothing else. *)
Lemma replace_bracketQuoteRe (s : jsstring) :
  replace s bracketQuoteRe []
  = strip (fun c => isSquareBracket c || isSingleQuote c) s.
Proof.
  rewrite (replace_single bracketQuoteRe []
             (fun c => isSquareBracket c || isSingleQuote c)).
  - unfold strip. induction s as [|c s IH]; cbn [flat_map filter];
      [reflexivity|].
    rewrite IH. now destruct (isSquareBracket c || isSingleQuote c).
  - reflexivity.
  - reflexivity.
  - intros c tl. unfold matchAt. cbn [bracketQuoteRe pattern ignoreCase matcher rest].
    unfold classAccepts, oneOf, isSquareBracket, isSingleQuote.
    cbn [js list_ascii_of_string map existsb andb orb].
    change (N_of_ascii "[") with 0x5B. change (N_of_ascii "]") with 0x5D.
    change (N_of_ascii "'") with 0x27.
    destruct (c =? 0x5B), (c =? 0x5D), (c =? 0x27); reflexivity.
Qed.

(** C6, as the code has it.  When the primary decode of the options text
    (single quotes turned into double quotes, then [JSON.parse]) fails, the
    result is the list obtained by removing every square bracket and every
    single quote -- double quotes stay --, splitting on commas, trimming each
    piece and discarding the empty ones, in order.  The literal
    ['A', 'B', 'C'] decodes to A, B, C by the primary decode, and the
    unquoted [A, B, C] to the same list by the fallback. *)
Theorem decodeOptions_fallback :
  (forall optionsStr : jsstring,
      Json.parse (map (fun c => if isSingleQuote c then DQUOTE else c)
                      optionsStr) = None ->
      decodeOptions optionsStr
      = VArray
          (map VString
             (filter nonEmpty
                (map trim
                   (split (strip (fun c => isSquareBracket c || isSingleQuote c)
                                 optionsStr)
                          (js ","))))))
  /\ decodeOptions (js "['A', 'B', 'C']")
     = VArray [VString (js "A"); VString (js "B"); VString (js "C")]
  /\ Json.parse (replace (js "[A, B, C]") quoteRe [DQUOTE]) = None
  /\ decodeOptions (js "[A, B, C]")
     = VArray [VString (js "A"); VString (js "B"); VString (js "C")].
Proof.
  split; [|repeat split; vm_compute; reflexivity].
  intros optionsStr Hfail. unfold decodeOptions, fallbackOptions.
  now rewrite replace_quoteRe, Hfail, replace_bracketQuoteRe.
Qed.

Lemma decodeOptions_fallback_witness :
  decodeOptions (js "[Opt A, 'Opt B',, Opt C ]")
  = VArray [VString (js "Opt A"); VString (js "Opt B"); VString (js "Opt C")].
Proof.
  exact (proj1 decodeOptions_fallback (js "[Opt A, 'Opt B',, Opt C ]") eq_refl).
Defined.

(** C6, as the specification words it, fails on an options text that holds double
    quotes: the primary decode of ["A", B] fails, the code keeps the double
    quotes around A, and stripping all quote characters would not. *)
Lemma decodeOptions_keeps_double_quotes :
  let optionsStr := [0x5B; DQUOTE; 0x41; DQUOTE; 0x2C; 0x20; 0x42; 0x5D] in
  Json.parse (replace optionsStr quoteRe [DQUOTE]) = None
  /\ decodeOptions optionsStr
     = VArray [VString [DQUOTE; 0x41; DQUOTE]; VString (js "B")]
  /\ fallbackAsSpecified optionsStr = [js "A"; js "B"]
  /\ decodeOptions optionsStr
     <> VArray (map VString (fallbackAsSpecified optionsStr)).
Proof.
  cbv zeta. repeat split; try (vm_compute; reflexivity).
  vm_compute. discriminate.
Qed.

(** *** Attempt 2 *)

(** C3, as the code has it.  Attempt 2 emits a question exactly when both
    the description pattern and the answer pattern match the row.  The
    question's description and answer are the trimmed texts that the two
    patterns capture, which may be empty; its skill and type are the
    caller's defaults. *)
Theorem strategyB_emits_iff_both_match
        (uuid row : jsstring) (dS dT : value) :
  ((exists q, strategyB uuid row dS dT = Some q)
   <-> (exists d, exec descRe row = Some d)
       /\ (exists a, exec ansRe row = Some a))
  /\ (forall q, strategyB uuid row dS dT = Some q ->
        exists d a gd ga,
          exec descRe row = Some d /\ capture1 d = Some gd
          /\ exec ansRe row = Some a /\ capture1 a = Some ga
          /\ description q = trim gd /\ answer q = trim ga
          /\ skill q = dS /\ type q = dT).
Proof.
  pose proof (exec_capture1 descRe _ _ eq_refl eq_refl row) as Cd.
  pose proof (exec_capture1 ansRe _ _ eq_refl eq_refl row) as Ca.
  unfold strategyB.
  destruct (exec descRe row) as [d|]; destruct (exec ansRe row) as [a|].
  - split.
    + split; [intros _ | intros _; eexists; reflexivity].
      split; eexists; reflexivity.
    + intros q Hq. inversion Hq; subst q. cbn [description answer skill type].
      destruct (Cd d eq_refl) as [gd Hgd]. destruct (Ca a eq_refl) as [ga Hga].
      exists d, a, gd, ga. unfold at1. rewrite Hgd, Hga. repeat split.
  - split; [|discriminate]. split; [intros [q Hq]; discriminate|].
    intros [_ [a F]]. discriminate.
  - split; [|discriminate]. split; [intros [q Hq]; discriminate|].
    intros [[d F] _]. discriminate.
  - split; [|discriminate]. split; [intros [q Hq]; discriminate|].
    intros [[d F] _]. discriminate.
Qed.

Lemma strategyB_emits_iff_both_match_witness :
  exists q,
    strategyB (js "id-0") (js "description: Capital of France? ANSWER: Paris")
              (VString (js "Reading")) (VString (js "Essay")) = Some q.
Proof.
  exact (proj2 (proj1 (strategyB_emits_iff_both_match (js "id-0")
                  (js "description: Capital of France? ANSWER: Paris")
                  (VString (js "Reading")) (VString (js "Essay"))))
               (conj (ex_intro _ _ eq_refl) (ex_intro _ _ eq_refl))).
Defined.

(** C3, as the specification words it, fails: a row whose labels are followed by
    nothing is accepted by attempt 2, with an empty description and an empty
    answer. *)
Lemma strategyB_accepts_empty_fields :
  let row := js "Description: Answer:" in
  let q := {| id := js "id-0"; description := []; options := VNull;
              answer := []; skill := VString (js "Reading");
              type := VString (js "Essay") |} in
  includes row fieldDelimiter = false
  /\ strategyB (js "id-0") row (VString (js "Reading")) (VString (js "Essay"))
     = Some q
  /\ parseDifyCSV (fun _ => js "id-0") row
                  (VString (js "Reading")) (VString (js "Essay")) = [q].
Proof. cbv zeta. repeat split; vm_compute; reflexivity. Qed.

(** C7.  The enumerator alternatives of the description pattern stand
    before the colon that closes the label, so a row numbered "1." without a
    colon has no description label: attempt 2 drops it.  With a colon after
    the enumerator the same row is accepted. *)
Theorem strategyB_enumerator_needs_colon
        (rng : nat -> jsstring) (dS dT : value) :
  includes (js "1. What is 2+2? Answer: 4") fieldDelimiter = false
  /\ exec descRe (js "1. What is 2+2? Answer: 4") = None
  /\ strategyB (rng 0%nat) (js "1. What is 2+2? Answer: 4") dS dT = None
  /\ parseDifyCSV rng (js "1. What is 2+2? Answer: 4") dS dT = []
  /\ parseDifyCSV rng (js "1.: What is 2+2? Answer: 4") dS VNull
     = [{| id := rng 0%nat; description := js "What is 2+2?";
           options := VNull; answer := js "4"; skill := dS; type := VNull |}].
Proof. repeat split; vm_compute; reflexivity. Qed.

(** C2.  A row whose type field is "Multiple Choice" and whose options
    field is the JSON literal null is emitted with options null: attempt 1
    stores what [JSON.parse] returned, while attempt 2 replaces a falsy
    result by the empty list.  A number literal in the options field is
    stored as that number by both. *)
Theorem multiple_choice_options_not_a_list
        (rng : nat -> jsstring) (dS dT : value) :
  parseDifyCSV rng (js "Q|->null|->A|->Math|->Multiple Choice") dS dT
  = [{| id := rng 0%nat; description := js "Q"; options := VNull;
        answer := js "A"; skill := VString (js "Math");
        type := VString MultipleChoice |}]
  /\ parseDifyCSV rng (js "Q|->5|->A|->Math|->Multiple Choice") dS dT
     = [{| id := rng 0%nat; description := js "Q";
           options := VNumber {| negative := false; mantissa := 5;
                                 exponent := 0 |};
           answer := js "A"; skill := VString (js "Math");
           type := VString MultipleChoice |}]
  /\ parseDifyCSV rng (js "Description: Q Options: null Answer: A")
                  dS (VString MultipleChoice)
     = [{| id := rng 0%nat; description := js "Q"; options := VArray [];
           answer := js "A"; skill := dS; type := VString MultipleChoice |}]
  /\ parseDifyCSV rng (js "Description: Q Options: 5 Answer: A")
                  dS (VString MultipleChoice)
     = [{| id := rng 0%nat; description := js "Q";
           options := VNumber {| negative := false; mantissa := 5;
                                 exponent := 0 |};
           answer := js "A"; skill := dS; type := VString MultipleChoice |}].
Proof. repeat split; vm_compute; reflexivity. Qed.

End ParserFacts.
Import ParserFacts.

(** ** The handler *)

Module HandlerFacts.

Lemma getProp_missing (members : list (jsstring * value)) (key : jsstring) :
  lookup key members = None -> getProp (VObject members) key = Some VUndefined.
Proof. intros H. cbn [getProp]. now rewrite H. Qed.

Lemma getProp_object (members : list (jsstring * value)) (key : jsstring) :
  exists v, getProp (VObject members) key = Some v.
Proof. cbn [getProp]. eexists. reflexivity. Qed.

(** The second guard: one falsy field is enough. *)
Lemma tryBlock_falsy_field (w : World) (req range skill type : value) :
  requestJson w = Returned req ->
  getProp req (js "range") = Some range ->
  getProp req (js "skill") = Some skill ->
  getProp req (js "type") = Some type ->
  truthy range && truthy skill && truthy type = false ->
  tryBlock w
  = (Returned {| body := ErrorBody (js "Missing required fields");
                 status := 400 |}, []).
Proof.
  intros Hreq Hr Hs Ht Hfalsy. unfold tryBlock. rewrite Hreq, Hr, Hs, Ht.
  replace (negb (truthy range) || negb (truthy skill) || negb (truthy type))
    with true; [reflexivity|].
  destruct (truthy range), (truthy skill), (truthy type);
    simpl in *; congruence.
Qed.

(** C9.  Without the upstream host or key the handler answers status 500
    with the fixed message "Dify configuration is missing", whatever the
    request.  With both set and a request body that decodes to an object,
    a missing one of [range], [skill], [type] (more generally a falsy one)
    is answered with status 400.  In both cases neither the upstream nor the
    parser has been called. *)
Theorem POST_rejects_before_any_call :
  (forall (env : Environment) (w : World),
      unset (DIFY_HOST env) || unset (DIFY_API_KEY env) = true ->
      POST env w
      = ({| body := ErrorBody (js "Dify configuration is missing");
            status := 500 |}, []))
  /\ (forall (env : Environment) (w : World)
             (members : list (jsstring * value)) (key : jsstring),
         unset (DIFY_HOST env) = false ->
         unset (DIFY_API_KEY env) = false ->
         requestJson w = Returned (VObject members) ->
         In key [js "range"; js "skill"; js "type"] ->
         lookup key members = None ->
         POST env w
         = ({| body := ErrorBody (js "Missing required fields");
               status := 400 |}, []))
  /\ (forall (env : Environment) (w : World) (req range skill type : value),
         unset (DIFY_HOST env) = false ->
         unset (DIFY_API_KEY env) = false ->
         requestJson w = Returned req ->
         getProp req (js "range") = Some range ->
         getProp req (js "skill") = Some skill ->
         getProp req (js "type") = Some type ->
         truthy range && truthy skill && truthy type = false ->
         POST env w
         = ({| body := ErrorBody (js "Missing required fields");
               status := 400 |}, [])).
Proof.
  assert (Falsy : forall (env : Environment) (w : World)
                         (req range skill type : value),
         unset (DIFY_HOST env) = false ->
         unset (DIFY_API_KEY env) = false ->
         requestJson w = Returned req ->
         getProp req (js "range") = Some range ->
         getProp req (js "skill") = Some skill ->
         getProp req (js "type") = Some type ->
         truthy range && truthy skill && truthy type = false ->
         POST env w
         = ({| body := ErrorBody (js "Missing required fields");
               status := 400 |}, [])).
  { intros env w req range skill type Hh Hk Hreq Hr Hs Ht Hfalsy.
    unfold POST. rewrite Hh, Hk. cbn [orb].
    now rewrite (tryBlock_falsy_field w req range skill type). }
  split; [|split; [|exact Falsy]].
  - intros env w Hunset. unfold POST. now rewrite Hunset.
  - intros env w members key Hh Hk Hreq Hin Hmiss.
    destruct (getProp_object members (js "range")) as [range Hr].
    destruct (getProp_object members (js "skill")) as [skill Hs].
    destruct (getProp_object members (js "type")) as [type Ht].
    apply (Falsy env w (VObject members) range skill type); try assumption.
    apply getProp_missing in Hmiss.
    destruct Hin as [<-|[<-|[<-|[]]]].
    + rewrite Hr in Hmiss. inversion Hmiss. reflexivity.
    + rewrite Hs in Hmiss. inversion Hmiss. cbn [truthy].
      now rewrite andb_false_r.
    + rewrite Ht in Hmiss. inversion Hmiss. apply andb_false_r.
Qed.

Lemma POST_rejects_before_any_call_witness :
  let w := {| requestJson :=
                Returned (VObject [(js "range", VString (js "A1-A2"));
                                   (js "skill", VString (js "Reading"))]);
              fetchResult := Thrown (js "unreachable");
              randomUUID := fun _ => js "id";
              typeErrorMessage := js "TypeError";
              syntaxErrorMessage := js "SyntaxError";
              statusErrorMessage := fun _ => js "RangeError" |} in
  POST {| DIFY_HOST := Some (js "https://dify.example/v1");
          DIFY_API_KEY := None |} w
  = ({| body := ErrorBody (js "Dify configuration is missing");
        status := 500 |}, [])
  /\ POST {| DIFY_HOST := Some (js "https://dify.example/v1");
             DIFY_API_KEY := Some (js "app-key") |} w
     = ({| body := ErrorBody (js "Missing required fields");
           status := 400 |}, []).
Proof.
  intros w. split.
  - exact (proj1 POST_rejects_before_any_call
             {| DIFY_HOST := Some (js "https://dify.example/v1");
                DIFY_API_KEY := None |} w eq_refl).
  - exact (proj1 (proj2 POST_rejects_before_any_call)
             {| DIFY_HOST := Some (js "https://dify.example/v1");
                DIFY_API_KEY := Some (js "app-key") |} w
             _ (js "type") eq_refl eq_refl eq_refl
             (or_intror (or_intror (or_introl eq_refl))) eq_refl).
Defined.

End HandlerFacts.

(** ** Further properties of the route *)

Module RouteFacts.

(** The end-to-end scenario: two rows separated by the row delimiter, the
    first with five fields and unquoted options, the second with two. *)
Theorem parseDifyCSV_two_row_scenario (rng : nat -> jsstring) :
  parseDifyCSV rng
    (js "Q1|->Opt A, Opt B|->Opt A|->Math|->Multiple Choice<_>Q2|->Opt C")
    (VString (js "Reading")) (VString (js "Short Answer"))
  = [ {| id := rng 0%nat; description := js "Q1";
         options := VArray [VString (js "Opt A"); VString (js "Opt B")];
         answer := js "Opt A"; skill := VString (js "Math");
         type := VString (js "Multiple Choice") |};
      {| id := rng 1%nat; description := js "Q2"; options := VNull;
         answer := js "Opt C"; skill := VString (js "Reading");
         type := VString (js "Short Answer") |} ].
Proof. unfold parseDifyCSV. vm_compute. reflexivity. Qed.

(** A row without field delimiter that lacks a description label or the
    answer label leaves the output as it was. *)
Theorem unlabelled_row_dropped
        (rng : nat -> jsstring) (dS dT : value) (st : ParserState)
        (row : jsstring) :
  includes row fieldDelimiter = false ->
  anywhere descriptionLabelAt row && anywhere answerLabelAt row = false ->
  parseRow rng dS dT st row = st.
Proof.
  intros Hi Hl. unfold parseRow. rewrite strategyA_includes, Hi.
  unfold strategyB.
  apply andb_false_iff in Hl as [Hl|Hl].
  - apply exec_descRe in Hl. now rewrite Hl.
  - apply exec_ansRe in Hl. rewrite Hl. now destruct (exec descRe row).
Qed.

Lemma unlabelled_row_dropped_witness :
  parseRow (fun _ => js "id") VNull VNull
           {| questions := []; drawn := 0 |} (js "Sorry, I cannot help.")
  = {| questions := []; drawn := 0 |}.
Proof.
  exact (unlabelled_row_dropped (fun _ => js "id") VNull VNull
           {| questions := []; drawn := 0 |} (js "Sorry, I cannot help.")
           eq_refl eq_refl).
Defined.

Lemma strategyA_id (uuid row : jsstring) (dS dT : value) (q : Question) :
  strategyA uuid row dS dT = Some q -> id q = uuid.
Proof.
  rewrite strategyA_includes. destruct (includes row fieldDelimiter);
    [|discriminate].
  intros H. inversion H. reflexivity.
Qed.

Lemma strategyB_id (uuid row : jsstring) (dS dT : value) (q : Question) :
  strategyB uuid row dS dT = Some q -> id q = uuid.
Proof.
  unfold strategyB. destruct (exec descRe row); [|discriminate].
  destruct (exec ansRe row); [|discriminate].
  intros H. inversion H. reflexivity.
Qed.

Lemma push_identified (rng : nat -> jsstring) (st : ParserState)
      (q : Question) :
  identified rng st -> id q = rng (drawn st) -> identified rng (push q st).
Proof.
  intros [Hd Hids] Hq. unfold identified, push. cbn [questions drawn].
  rewrite length_app, map_app, seq_app, map_app, <- Hids. cbn [List.length].
  split; [lia|]. simpl. now rewrite Hq, Hd.
Qed.

Lemma parseRow_identified (rng : nat -> jsstring) (dS dT : value)
      (st : ParserState) (row : jsstring) :
  identified rng st -> identified rng (parseRow rng dS dT st row).
Proof.
  intros H. unfold parseRow.
  destruct (strategyA (rng (drawn st)) row dS dT) as [q|] eqn:EA.
  - apply push_identified; [exact H | now apply strategyA_id in EA].
  - destruct (strategyB (rng (drawn st)) row dS dT) as [q|] eqn:EB.
    + apply push_identified; [exact H | now apply strategyB_id in EB].
    + exact H.
Qed.

Lemma fold_parseRow_identified (rng : nat -> jsstring) (dS dT : value)
      (rows : list jsstring) :
  forall st, identified rng st ->
             identified rng (fold_left (parseRow rng dS dT) rows st).
Proof.
  induction rows as [|row rows IH]; intros st H; cbn [fold_left].
  - exact H.
  - apply IH. now apply parseRow_identified.
Qed.

(** The question at position [k] of the output carries the [k]-th
    identifier the generator produced: one identifier per question, drawn in
    output order, none skipped or reused. *)
Theorem parseDifyCSV_ids
        (rng : nat -> jsstring) (raw : jsstring) (dS dT : value) :
  map id (parseDifyCSV rng raw dS dT)
  = map rng (seq 0 (List.length (parseDifyCSV rng raw dS dT))).
Proof.
  unfold parseDifyCSV.
  apply (fold_parseRow_identified rng dS dT (splitRows (cleanRaw raw))
           {| questions := []; drawn := 0 |}).
  split; reflexivity.
Qed.

Lemma strategyA_optionsNull (uuid row : jsstring) (dS dT : value)
      (q : Question) :
  strategyA uuid row dS dT = Some q -> optionsNullUnlessChoice q.
Proof.
  rewrite strategyA_includes. destruct (includes row fieldDelimiter);
    [|discriminate].
  intros H. inversion H. unfold optionsNullUnlessChoice, questionOf.
  cbn [type options]. now intros ->.
Qed.

Lemma strategyB_optionsNull (uuid row : jsstring) (dS dT : value)
      (q : Question) :
  strategyB uuid row dS dT = Some q -> optionsNullUnlessChoice q.
Proof.
  unfold strategyB. destruct (exec descRe row); [|discriminate].
  destruct (exec ansRe row); [|discriminate].
  intros H. inversion H. unfold optionsNullUnlessChoice.
  cbn [type options]. now intros ->.
Qed.

Lemma fold_parseRow_optionsNull (rng : nat -> jsstring) (dS dT : value)
      (rows : list jsstring) :
  forall st, Forall optionsNullUnlessChoice (questions st) ->
             Forall optionsNullUnlessChoice
                    (questions (fold_left (parseRow rng dS dT) rows st)).
Proof.
  induction rows as [|row rows IH]; intros st H; cbn [fold_left];
    [exact H|].
  apply IH. unfold parseRow.
  destruct (strategyA (rng (drawn st)) row dS dT) as [q|] eqn:EA.
  - cbn [push questions]. apply Forall_app. split; [exact H|].
    constructor; [now apply strategyA_optionsNull in EA | constructor].
  - destruct (strategyB (rng (drawn st)) row dS dT) as [q|] eqn:EB;
      [|exact H].
    cbn [push questions]. apply Forall_app. split; [exact H|].
    constructor; [now apply strategyB_optionsNull in EB | constructor].
Qed.

Theorem parseDifyCSV_options_null_unless_choice
        (rng : nat -> jsstring) (raw : jsstring) (dS dT : value) :
  Forall optionsNullUnlessChoice (parseDifyCSV rng raw dS dT).
Proof.
  unfold parseDifyCSV. apply fold_parseRow_optionsNull. constructor.
Qed.

(** Every row adds at most one question, so the output is no longer than
    the list of rows. *)
Lemma fold_parseRow_length (rng : nat -> jsstring) (dS dT : value)
      (rows : list jsstring) :
  forall st,
    (List.length (questions (fold_left (parseRow rng dS dT) rows st))
     <= List.length (questions st) + List.length rows)%nat.
Proof.
  induction rows as [|row rows IH]; intros st; cbn [fold_left List.length].
  - lia.
  - specialize (IH (parseRow rng dS dT st row)).
    assert (List.length (questions (parseRow rng dS dT st row))
            <= S (List.length (questions st)))%nat; [|lia].
    unfold parseRow.
    destruct (strategyA _ _ _ _); [|destruct (strategyB _ _ _ _)];
      cbn [push questions]; rewrite ?length_app; simpl; lia.
Qed.

Theorem parseDifyCSV_at_most_one_per_row
        (rng : nat -> jsstring) (raw : jsstring) (dS dT : value) :
  (List.length (parseDifyCSV rng raw dS dT)
   <= List.length (splitRows (cleanRaw raw)))%nat.
Proof.
  unfold parseDifyCSV.
  exact (fold_parseRow_length rng dS dT (splitRows (cleanRaw raw))
           {| questions := []; drawn := 0 |}).
Qed.

(** A non-success reply of the upstream whose body was read, to a request
    whose three fields are truthy and convert to strings: when the reply's
    status is one a response with a body may have, it is passed on, with the
    body text in the message; otherwise building the response throws and
    the handler answers status 500.  The upstream was called, the parser was
    not. *)
Theorem POST_upstream_error
        (env : Environment) (w : World) (req range skill type : value)
        (response : UpstreamResponse) (errorText : jsstring) :
  unset (DIFY_HOST env) = false ->
  unset (DIFY_API_KEY env) = false ->
  requestJson w = Returned req ->
  getProp req (js "range") = Some range ->
  getProp req (js "skill") = Some skill ->
  getProp req (js "type") = Some type ->
  truthy range && truthy skill && truthy type = true ->
  convertsToString range && convertsToString skill && convertsToString type
  = true ->
  fetchResult w = Returned response ->
  ok response = false ->
  bodyRead response = Returned errorText ->
  POST env w
  = (if validStatus (upstreamStatus response)
     then {| body := ErrorBody (js "Dify API error: " ++ errorText);
             status := upstreamStatus response |}
     else {| body := ErrorBody
                       match statusErrorMessage w (upstreamStatus response)
                       with
                       | [] => js "Internal Server Error"
                       | _ :: _ => statusErrorMessage w (upstreamStatus response)
                       end;
             status := 500 |},
     [CalledUpstream]).
Proof.
  intros Hh Hk Hreq Hr Hs Ht Htruthy Hconv Hfetch Hok Hread.
  apply andb_true_iff in Htruthy as [Htruthy Ht3].
  apply andb_true_iff in Htruthy as [Ht1 Ht2].
  unfold POST. rewrite Hh, Hk. cbn [orb].
  unfold tryBlock.
  rewrite Hreq, Hr, Hs, Ht, Ht1, Ht2, Ht3, Hconv, Hfetch, Hok, Hread.
  cbn [negb orb]. unfold NextResponse_json.
  destruct (validStatus (upstreamStatus response)); reflexivity.
Qed.

Lemma POST_upstream_error_witness :
  let env := {| DIFY_HOST := Some (js "https://dify.example/v1");
                DIFY_API_KEY := Some (js "app-key") |} in
  let request := VObject [(js "range", VString (js "A1-A2"));
                          (js "skill", VString (js "Reading"));
                          (js "type", VString (js "Essay"))] in
  let world (code : N) :=
    {| requestJson := Returned request;
       fetchResult :=
         Returned {| upstreamStatus := code;
                     bodyRead := Returned (js "rate limited") |};
       randomUUID := fun _ => js "id";
       typeErrorMessage := js "TypeError";
       syntaxErrorMessage := js "SyntaxError";
       statusErrorMessage := fun _ => js "Invalid response status code" |} in
  POST env (world 429)
  = ({| body := ErrorBody (js "Dify API error: rate limited");
        status := 429 |}, [CalledUpstream])
  /\ POST env (world 304)
     = ({| body := ErrorBody (js "Invalid response status code");
           status := 500 |}, [CalledUpstream]).
Proof.
  intros env request world. split.
  - exact (POST_upstream_error env (world 429) _ (VString (js "A1-A2"))
             (VString (js "Reading")) (VString (js "Essay"))
             {| upstreamStatus := 429;
                bodyRead := Returned (js "rate limited") |}
             (js "rate limited")
             eq_refl eq_refl eq_refl eq_refl eq_refl eq_refl eq_refl
             eq_refl eq_refl eq_refl eq_refl).
  - exact (POST_upstream_error env (world 304) _ (VString (js "A1-A2"))
             (VString (js "Reading")) (VString (js "Essay"))
             {| upstreamStatus := 304;
                bodyRead := Returned (js "rate limited") |}
             (js "rate limited")
             eq_refl eq_refl eq_refl eq_refl eq_refl eq_refl eq_refl
             eq_refl eq_refl eq_refl eq_refl).
Defined.

End RouteFacts.

(** ** More facts about [trim] *)

Module TrimFacts.

Lemma trimStart_split (s : jsstring) :
  exists pre, s = pre ++ trimStart s /\ blank pre = true.
Proof.
  induction s as [|c s (pre & Hs & Hb)]; [now exists []|].
  cbn [trimStart]. destruct (isWhiteSpace c) eqn:Hc.
  - exists (c :: pre). split; [simpl; now f_equal|]. simpl. now rewrite Hc.
  - now exists [].
Qed.

Lemma blank_app (a b : jsstring) : blank (a ++ b) = blank a && blank b.
Proof. apply forallb_app. Qed.

Lemma blank_rev (a : jsstring) : blank (rev a) = blank a.
Proof.
  induction a as [|c a IH]; [reflexivity|].
  simpl. rewrite blank_app, IH. simpl. rewrite andb_true_r. apply andb_comm.
Qed.

Lemma trimEnd_split (s : jsstring) :
  exists post, s = trimEnd s ++ post /\ blank post = true.
Proof.
  unfold trimEnd. destruct (trimStart_split (rev s)) as (pre & Hs & Hb).
  exists (rev pre). split; [|now rewrite blank_rev].
  rewrite <- rev_app_distr, <- Hs. symmetry. apply rev_involutive.
Qed.

(** [trim] removes white space at both ends and nothing else. *)
Lemma trim_split (s : jsstring) :
  exists pre post,
    s = pre ++ trim s ++ post /\ blank pre = true /\ blank post = true.
Proof.
  destruct (trimStart_split s) as (pre & Hs & Hpre).
  destruct (trimEnd_split (trimStart s)) as (post & Ht & Hpost).
  exists pre, post. unfold trim. now rewrite <- Ht.
Qed.

Lemma trimStart_head (s : jsstring) :
  match trimStart s with
  | [] => True
  | c :: _ => isWhiteSpace c = false
  end.
Proof.
  induction s as [|c s IH]; [exact I|].
  cbn [trimStart]. destruct (isWhiteSpace c) eqn:Hc; [exact IH | exact Hc].
Qed.

Lemma trimStart_fixed (s : jsstring) :
  match s with [] => True | c :: _ => isWhiteSpace c = false end ->
  trimStart s = s.
Proof. destruct s as [|c s]; [reflexivity|]. simpl. now intros ->. Qed.

Lemma trimStart_idem (s : jsstring) : trimStart (trimStart s) = trimStart s.
Proof. apply trimStart_fixed, trimStart_head. Qed.

Lemma trimStart_blank (s : jsstring) : blank s = true -> trimStart s = [].
Proof.
  induction s as [|c s IH]; [reflexivity|]. simpl.
  intros H. apply andb_true_iff in H as [-> H]. now apply IH.
Qed.

Lemma trimStart_nil (s : jsstring) : trimStart s = [] -> blank s = true.
Proof.
  intros H. destruct (trimStart_split s) as (pre & Hs & Hb).
  rewrite H, app_nil_r in Hs. now subst.
Qed.

(** In front of a text that starts with something else than white space,
    [trimStart] only sees the first part. *)
Lemma trimStart_app (a b : jsstring) :
  match b with [] => False | c :: _ => isWhiteSpace c = false end ->
  trimStart (a ++ b) = trimStart a ++ b.
Proof.
  intros Hb. induction a as [|c a IH].
  - destruct b as [|x b]; [contradiction|]. simpl. now rewrite Hb.
  - simpl. destruct (isWhiteSpace c); [exact IH | reflexivity].
Qed.

Lemma trimEnd_idem (s : jsstring) : trimEnd (trimEnd s) = trimEnd s.
Proof.
  unfold trimEnd. now rewrite rev_involutive, trimStart_idem.
Qed.

Lemma trimEnd_keeps_head (s : jsstring) :
  match s with [] => True | c :: _ => isWhiteSpace c = false end ->
  match trimEnd s with [] => True | c :: _ => isWhiteSpace c = false end.
Proof.
  intros H. destruct (trimEnd_split s) as (post & Hs & Hb).
  destruct (trimEnd s) as [|c t]; [exact I|].
  rewrite Hs in H. exact H.
Qed.

(** A trimmed text is left alone by [trim]. *)
Lemma trim_idem (s : jsstring) : trim (trim s) = trim s.
Proof.
  unfold trim at 1.
  rewrite (trimStart_fixed (trim s)).
  - unfold trim. apply trimEnd_idem.
  - unfold trim. apply trimEnd_keeps_head, trimStart_head.
Qed.

Lemma trim_blank (s : jsstring) : blank s = true -> trim s = [].
Proof. intros H. unfold trim. now rewrite (trimStart_blank s H). Qed.

Lemma trim_nil (s : jsstring) : trim s = [] -> blank s = true.
Proof.
  intros H. destruct (trim_split s) as (pre & post & Hs & Hpre & Hpost).
  rewrite H in Hs. rewrite Hs, blank_app, Hpre. exact Hpost.
Qed.

Lemma In_trim (c : code_unit) (s : jsstring) : In c (trim s) -> In c s.
Proof.
  intros H. destruct (trim_split s) as (pre & post & Hs & _).
  rewrite Hs. apply in_or_app. right. apply in_or_app. now left.
Qed.

Lemma includes_trim (s p : jsstring) :
  includes (trim s) p = true -> includes s p = true.
Proof.
  intros H. destruct (trim_split s) as (pre & post & Hs & _).
  rewrite Hs. apply includes_app_r. now apply includes_app_l.
Qed.

(** An occurrence starts with the first code unit of what occurs. *)
Lemma includes_In (s p : jsstring) (a : code_unit) :
  includes s (a :: p) = true -> In a s.
Proof.
  induction s as [|c s IH]; [discriminate|].
  change (startsWith (c :: s) (a :: p) || includes s (a :: p) = true
          -> In a (c :: s)).
  intros H. apply orb_true_iff in H as [H|H].
  - simpl in H. apply andb_true_iff in H as [H _].
    apply N.eqb_eq in H. now left.
  - right. now apply IH.
Qed.

Lemma blank_In (s : jsstring) (c : code_unit) :
  blank s = true -> In c s -> isWhiteSpace c = true.
Proof.
  unfold blank. rewrite forallb_forall. intros H Hc. now apply H.
Qed.

End TrimFacts.
Import TrimFacts.

(** ** The normalizer and the row splitter *)

Module NormalizerFacts.

(** Without the [i] flag a literal matches where it occurs. *)
Lemma matcher_Lit_exact (p : jsstring) :
  forall st k,
    matcher false (Lit p) st k
    = if startsWith (rest st) p
      then k (MState (skipn (List.length p) (rest st)) (group1 st))
      else None.
Proof.
  induction p as [|a p IH]; intros [s g] k.
  - reflexivity.
  - cbn [Lit matcher rest group1]. destruct s as [|b s]; [reflexivity|].
    cbn [startsWith Canonicalize]. rewrite (N.eqb_sym a b).
    destruct (b =? a); [|reflexivity].
    rewrite IH. reflexivity.
Qed.

Lemma matchAt_fenceRe (s : jsstring) :
  matchAt fenceRe s
  = if startsWith s fence then Some (MState (skipn 3 s) None) else None.
Proof. unfold matchAt. cbn [fenceRe pattern ignoreCase]. apply matcher_Lit_exact. Qed.

(** The scan of a replacement, one step at a time. *)
Lemma replace_from_0 (re : RegExp) (rep s : jsstring) :
  replace_from re rep 0 s
  = match matchAt re s with
    | Some st =>
        rep ++
        match (List.length s - List.length (rest st))%nat, s with
        | _, [] => []
        | O, c :: tl => c :: replace_from re rep 0 tl
        | S k, _ :: tl => replace_from re rep k tl
        end
    | None =>
        match s with
        | [] => []
        | c :: tl => c :: replace_from re rep 0 tl
        end
    end.
Proof. destruct s; reflexivity. Qed.

Lemma replace_from_S (re : RegExp) (rep : jsstring) (k : nat)
      (c : code_unit) (s : jsstring) :
  replace_from re rep (S k) (c :: s) = replace_from re rep k s.
Proof. reflexivity. Qed.

Lemma fenceRe_step_fence (u : jsstring) :
  replace_from fenceRe [] 0 (fence ++ u) = replace_from fenceRe [] 0 u.
Proof.
  rewrite replace_from_0, matchAt_fenceRe, startsWith_app.
  cbn [rest]. change (skipn 3 (fence ++ u)) with u.
  replace (List.length (fence ++ u) - List.length u)%nat with 3%nat
    by (change (List.length (fence ++ u)) with (3 + List.length u)%nat; lia).
  change (fence ++ u) with (0x60 :: 0x60 :: 0x60 :: u).
  cbn [app]. now rewrite !replace_from_S.
Qed.

Lemma fenceRe_step_other (c : code_unit) (s : jsstring) :
  startsWith (c :: s) fence = false ->
  replace_from fenceRe [] 0 (c :: s) = c :: replace_from fenceRe [] 0 s.
Proof.
  intros H. now rewrite replace_from_0, matchAt_fenceRe, H.
Qed.

Lemma fenceRe_head1 (s : jsstring) :
  startsWith s [0x60] = false ->
  startsWith (replace_from fenceRe [] 0 s) [0x60] = false.
Proof.
  destruct s as [|c s]; intros H; [reflexivity|].
  rewrite fenceRe_step_other.
  - exact H.
  - simpl in H |- *. apply andb_false_iff in H as [H|H]; [|discriminate].
    now rewrite H.
Qed.

Lemma fenceRe_head2 (s : jsstring) :
  startsWith s [0x60; 0x60] = false ->
  startsWith (replace_from fenceRe [] 0 s) [0x60; 0x60] = false.
Proof.
  destruct s as [|c s]; intros H; [reflexivity|].
  assert (Hf : startsWith (c :: s) fence = false).
  { change (startsWith (c :: s) fence)
      with ((0x60 =? c) && startsWith s [0x60; 0x60]).
    change (startsWith (c :: s) [0x60; 0x60])
      with ((0x60 =? c) && startsWith s [0x60]) in H.
    destruct (0x60 =? c); [|reflexivity]. cbn [andb] in *.
    destruct s as [|d s]; [reflexivity|].
    simpl in H |- *. apply andb_false_iff in H as [H|H]; [|discriminate].
    now rewrite H. }
  rewrite (fenceRe_step_other c s Hf).
  change (startsWith (c :: replace_from fenceRe [] 0 s) [0x60; 0x60])
    with ((0x60 =? c) && startsWith (replace_from fenceRe [] 0 s) [0x60]).
  change (startsWith (c :: s) [0x60; 0x60])
    with ((0x60 =? c) && startsWith s [0x60]) in H.
  destruct (0x60 =? c); [|reflexivity]. cbn [andb] in *.
  now apply fenceRe_head1.
Qed.

(** After the second replacement no run of three backticks is left. *)
Lemma fenceRe_removes_all (n : nat) :
  forall s, (List.length s <= n)%nat ->
            includes (replace_from fenceRe [] 0 s) fence = false.
Proof.
  induction n as [|n IH]; intros s Hlen.
  - destruct s; [reflexivity | simpl in Hlen; lia].
  - destruct s as [|c s]; [reflexivity|].
    destruct (startsWith (c :: s) fence) eqn:Hf.
    + apply startsWith_skipn in Hf. rewrite Hf, fenceRe_step_fence.
      apply IH. rewrite Hf in Hlen. rewrite length_app in Hlen.
      change (List.length fence) with 3%nat in *. lia.
    + rewrite (fenceRe_step_other c s Hf).
      change (startsWith (c :: replace_from fenceRe [] 0 s) fence
              || includes (replace_from fenceRe [] 0 s) fence = false).
      rewrite (IH s) by (simpl in Hlen; lia). rewrite orb_false_r.
      change (startsWith (c :: replace_from fenceRe [] 0 s) fence)
        with ((0x60 =? c)
              && startsWith (replace_from fenceRe [] 0 s) [0x60; 0x60]).
      change (startsWith (c :: s) fence)
        with ((0x60 =? c) && startsWith s [0x60; 0x60]) in Hf.
      destruct (0x60 =? c); [|reflexivity]. cbn [andb] in *.
      now apply fenceRe_head2.
Qed.

(** A replacement by the empty text only deletes. *)
Lemma replace_from_deletes (re : RegExp) :
  forall s k c, In c (replace_from re [] k s) -> In c s.
Proof.
  induction s as [|x s IH]; intros k c H.
  - destruct k; cbn [replace_from] in H.
    + destruct (matchAt re []); exact H.
    + exact H.
  - destruct k as [|k]; cbn [replace_from] in H.
    + destruct (matchAt re (x :: s)) as [st|].
      * cbn [app] in H.
        destruct (List.length (x :: s) - List.length (rest st))%nat.
        -- destruct H as [H|H]; [now left | right; now apply (IH 0%nat)].
        -- right. now apply (IH n).
      * destruct H as [H|H]; [now left | right; now apply (IH 0%nat)].
    + right. now apply (IH k).
Qed.

Lemma replace_deletes (s : jsstring) (re : RegExp) (c : code_unit) :
  global re = true -> In c (replace s re []) -> In c s.
Proof. unfold replace. intros ->. apply replace_from_deletes. Qed.

(** The cleaned text is trimmed, holds no run of three backticks, and holds
    no code unit that the raw text does not hold. *)
Theorem cleanRaw_normal_form (raw : jsstring) :
  trim (cleanRaw raw) = cleanRaw raw
  /\ includes (cleanRaw raw) (js "```") = false
  /\ incl (cleanRaw raw) raw.
Proof.
  unfold cleanRaw. split; [apply trim_idem|]. split.
  - destruct (includes (trim _) _) eqn:H; [|reflexivity].
    apply includes_trim in H. unfold replace at 1 in H. cbn [fenceRe global] in H.
    now rewrite (fenceRe_removes_all _ _ (le_n _)) in H.
  - intros c H. apply In_trim in H.
    apply replace_deletes in H; [|reflexivity].
    now apply replace_deletes in H.
Qed.

(** A payload of white space only, the empty payload included, cleans to
    the empty text and yields no question. *)
Theorem blank_payload_no_questions
        (rng : nat -> jsstring) (raw : jsstring) (dS dT : value) :
  blank raw = true ->
  cleanRaw raw = [] /\ parseDifyCSV rng raw dS dT = [].
Proof.
  intros Hb.
  assert (Hclean : cleanRaw raw = []).
  { unfold cleanRaw. apply trim_blank. unfold blank. apply forallb_forall.
    intros c H. apply (blank_In raw c Hb).
    apply replace_deletes in H; [|reflexivity].
    now apply replace_deletes in H. }
  split; [exact Hclean|]. unfold parseDifyCSV. now rewrite Hclean.
Qed.

Lemma blank_payload_no_questions_witness :
  cleanRaw [0x20; LF; 0x09] = []
  /\ parseDifyCSV (fun _ => js "id") [0x20; LF; 0x09] VNull VNull = [].
Proof.
  exact (blank_payload_no_questions (fun _ => js "id") [0x20; LF; 0x09]
           VNull VNull eq_refl).
Defined.

(** Every piece of a split is a part of the text. *)
Lemma split_from_parts (sep : jsstring) :
  forall s k,
    let '(h, t) := split_from sep k s in
    (exists b, skipn k s = h ++ b)
    /\ forall p, In p t -> exists a b, s = a ++ p ++ b.
Proof.
  induction s as [|c s IH]; intros k.
  - cbn [split_from]. split; [exists []; now destruct k | intros p []].
  - destruct k as [|k]; cbn [split_from].
    + destruct (startsWith (c :: s) sep).
      * specialize (IH (List.length sep - 1)%nat).
        destruct (split_from sep (List.length sep - 1) s) as [h t].
        destruct IH as [[b Hb] Ht].
        split; [exists (c :: s); reflexivity|].
        intros p [<-|Hp].
        -- exists (c :: firstn (List.length sep - 1) s), b.
           cbn [app]. f_equal. rewrite <- Hb. symmetry. apply firstn_skipn.
        -- destruct (Ht p Hp) as (a & b' & ->). now exists (c :: a), b'.
      * specialize (IH 0%nat). destruct (split_from sep 0 s) as [h t].
        destruct IH as [[b Hb] Ht]. cbn [skipn] in Hb |- *.
        split; [exists b; cbn [app]; now f_equal|].
        intros p Hp. destruct (Ht p Hp) as (a & b' & ->).
        now exists (c :: a), b'.
    + specialize (IH k). destruct (split_from sep k s) as [h t].
      destruct IH as [Hh Ht]. split; [exact Hh|].
      intros p Hp. destruct (Ht p Hp) as (a & b' & ->).
      now exists (c :: a), b'.
Qed.

Lemma split_parts (s sep p : jsstring) :
  In p (split s sep) -> exists a b, s = a ++ p ++ b.
Proof.
  unfold split. destruct sep as [|x sep].
  - intros H. apply in_map_iff in H as (c & <- & Hc).
    apply in_split in Hc as (a & b & ->). now exists a, b.
  - pose proof (split_from_parts (x :: sep) s 0) as H.
    destruct (split_from (x :: sep) 0 s) as [h t].
    destruct H as [[b Hb] Ht]. intros [<-|Hp].
    + exists [], b. exact Hb.
    + now apply Ht.
Qed.

(** Every row handed to the row parser is a part of the cleaned text and
    holds something else than white space. *)
Theorem splitRows_rows (clean : jsstring) :
  Forall (fun row => nonBlank row = true
                     /\ exists a b, clean = a ++ row ++ b)
         (splitRows clean).
Proof.
  apply Forall_forall. intros row H. unfold splitRows in H.
  destruct ((List.length (filter nonBlank (split clean rowDelimiter)) <=? 1)%nat
            && includes clean fieldDelimiter && includes clean [LF]).
  - apply filter_In in H as [Hin Hfd]. split; [|now apply split_parts in Hin].
    unfold nonBlank. apply Nat.ltb_lt.
    destruct (trim row) eqn:Ht; [|simpl; lia].
    apply trim_nil in Ht. apply includes_In in Hfd.
    pose proof (blank_In row _ Ht Hfd) as Hws. discriminate.
  - apply filter_In in H as [Hin Hnb]. split; [exact Hnb|].
    now apply split_parts in Hin.
Qed.

End NormalizerFacts.

(** ** What the label patterns extract *)

Module LabelFacts.

Lemma matcher_Seq (ic : bool) (a b : regex) (st : mstate)
      (k : mstate -> option mstate) :
  matcher ic (Seq a b) st k = matcher ic a st (fun st' => matcher ic b st' k).
Proof. reflexivity. Qed.

Lemma matcher_Alt (ic : bool) (a b : regex) (st : mstate)
      (k : mstate -> option mstate) :
  matcher ic (Alt a b) st k
  = match matcher ic a st k with
    | Some res => Some res
    | None => matcher ic b st k
    end.
Proof. reflexivity. Qed.

Lemma matcher_Class (ic : bool) (c : code_unit) (s : jsstring)
      (g : option jsstring) (k : mstate -> option mstate) :
  matcher ic (Class anyChar) (MState (c :: s) g) k = k (MState s g).
Proof. reflexivity. Qed.

Lemma matcher_Star (ic g : bool) (a : regex) (st : mstate)
      (k : mstate -> option mstate) :
  matcher ic (Star g a) st k
  = starLoop (matcher ic a) g k (List.length (rest st)) st.
Proof. reflexivity. Qed.

(** The matcher only looks at the values of its continuation. *)
Lemma starLoop_ext
      (body : mstate -> (mstate -> option mstate) -> option mstate)
      (g : bool) (k k' : mstate -> option mstate) :
  (forall st c c', (forall x, c x = c' x) -> body st c = body st c') ->
  (forall x, k x = k' x) ->
  forall n st, starLoop body g k n st = starLoop body g k' n st.
Proof.
  intros Hbody Hk. induction n as [|n IH]; intros st; cbn [starLoop].
  - now rewrite Hk.
  - rewrite Hk. erewrite Hbody; [reflexivity|].
    intros x. cbv beta. now rewrite IH.
Qed.

Lemma matcher_ext (ic : bool) (r : regex) :
  forall st k k', (forall x, k x = k' x) ->
                  matcher ic r st k = matcher ic r st k'.
Proof.
  induction r as [| c | member | a IHa b IHb | a IHa b IHb | g a IHa
                 | a IHa | a IHa |]; intros st k k' Hk; cbn [matcher].
  - apply Hk.
  - destruct (rest st); [reflexivity|]. now rewrite Hk.
  - destruct (rest st); [reflexivity|]. now rewrite Hk.
  - apply IHa. intros x. now apply IHb.
  - now rewrite (IHa st k k' Hk), (IHb st k k' Hk).
  - apply starLoop_ext; [|exact Hk]. intros; now apply IHa.
  - apply IHa. intros x. apply Hk.
  - destruct (matcher ic a st Some); [apply Hk | reflexivity].
  - destruct (rest st); [apply Hk | reflexivity].
Qed.

(** No letter has a white-space case variant. *)
Lemma classAccepts_isWhiteSpace (c : code_unit) :
  classAccepts true isWhiteSpace c = isWhiteSpace c.
Proof.
  unfold classAccepts. destruct (isWhiteSpace c) eqn:Hc; [reflexivity|].
  cbn [orb andb]. unfold toUpper, toLower.
  destruct (isLower c) eqn:Hl; destruct (isUpper c) eqn:Hu;
    rewrite ?Hc; cbn [orb]; try reflexivity;
    unfold isLower, isUpper in *;
    repeat match goal with
           | H : _ && _ = true |- _ => apply andb_true_iff in H as [? ?]
           | H : (_ <=? _) = true |- _ => apply N.leb_le in H
           end;
    unfold isWhiteSpace;
    repeat match goal with
           | |- context [?a <=? ?b] =>
               destruct (N.leb_spec a b); try lia
           | |- context [?a =? ?b] =>
               destruct (N.eqb_spec a b); try lia
           end; reflexivity.
Qed.

(** The greedy [\s*] in front of a continuation that cannot fail skips
    exactly the leading white space. *)
Lemma greedy_ws (k : mstate -> option mstate) :
  (forall st, k st <> None) ->
  forall s g,
    starLoop (matcher true (Class isWhiteSpace)) true k
             (List.length s) (MState s g)
    = k (MState (trimStart s) g).
Proof.
  intros Hk. induction s as [|c s IH]; intros g.
  - reflexivity.
  - cbn [List.length starLoop matcher rest group1 trimStart].
    rewrite classAccepts_isWhiteSpace.
    destruct (isWhiteSpace c); [|reflexivity].
    replace (List.length s <? S (List.length s))%nat with true
      by (symmetry; apply Nat.ltb_lt; lia).
    rewrite IH. specialize (Hk (MState (trimStart s) g)).
    now destruct (k _).
Qed.

(** A lookahead without group succeeds or fails and changes nothing. *)
Lemma lookahead_test (stop : regex) (test : jsstring -> bool) :
  hasCapture stop = false ->
  (forall s g, matcher true stop (MState s g) Some = None <-> test s = false) ->
  forall s g,
    matcher true (Lookahead stop) (MState s g) Some
    = if test s then Some (MState s g) else None.
Proof.
  intros Hc Htest s g. cbn [matcher rest].
  destruct (matcher true stop (MState s g) Some) as [st|] eqn:E.
  - destruct (test s) eqn:Ht.
    + apply matcher_result in E as (x & Hx & Keep). inversion Hx; subst x.
      now rewrite (Keep Hc).
    + apply (proj2 (Htest s g)) in Ht. congruence.
  - apply (proj1 (Htest s g)) in E. now rewrite E.
Qed.

(** The lazy [[\s\S]*?] in front of such a lookahead stops at the first
    position the lookahead accepts; [pre] is what the group already holds. *)
Lemma lazy_any_upTo (test : jsstring -> bool) (whole : jsstring) :
  test [] = true ->
  forall s pre g,
    whole = pre ++ s ->
    option_map group1
      (starLoop (matcher true (Class anyChar)) false
         (fun st' =>
            if test (rest st')
            then Some (MState (rest st')
                         (Some (firstn (List.length whole
                                        - List.length (rest st')) whole)))
            else None)
         (List.length s) (MState s g))
    = Some (Some (pre ++ upTo test s)).
Proof.
  intros Hend. induction s as [|c s IH]; intros pre g Hw.
  - cbn [List.length starLoop rest upTo]. rewrite Hend. cbn.
    rewrite Nat.sub_0_r, firstn_all, Hw. reflexivity.
  - cbn [List.length starLoop rest upTo].
    destruct (test (c :: s)) eqn:Ht.
    + cbn. f_equal. f_equal. rewrite Hw, length_app, app_nil_r.
      cbn [List.length].
      replace (List.length pre + S (List.length s) - S (List.length s))%nat
        with (List.length pre + 0)%nat by lia.
      now rewrite firstn_app_2, firstn_O, app_nil_r.
    + rewrite matcher_Class. cbn [rest].
      replace (List.length s <? S (List.length s))%nat with true
        by (symmetry; apply Nat.ltb_lt; lia).
      rewrite (IH (pre ++ [c]) g) by (now rewrite <- app_assoc).
      now rewrite <- app_assoc.
Qed.

Lemma capture_upTo (stop : regex) (test : jsstring -> bool) :
  hasCapture stop = false ->
  (forall s g, matcher true stop (MState s g) Some = None <-> test s = false) ->
  test [] = true ->
  forall t g,
    option_map group1
      (matcher true (Seq (Capture (Star false (Class anyChar)))
                         (Lookahead stop)) (MState t g) Some)
    = Some (Some (upTo test t)).
Proof.
  intros Hc Htest Hend t g.
  rewrite matcher_Seq. cbn [matcher rest].
  erewrite starLoop_ext.
  - exact (lazy_any_upTo test t Hend t [] g eq_refl).
  - intros st c c' Hcc. now apply (matcher_ext true (Class anyChar)).
  - intros x. unfold consumed. cbn [rest].
    exact (lookahead_test stop test Hc Htest (rest x) _).
Qed.

Lemma afterLabel_upTo (stop : regex) (test : jsstring -> bool) :
  hasCapture stop = false ->
  (forall s g, matcher true stop (MState s g) Some = None <-> test s = false) ->
  test [] = true ->
  forall s g,
    option_map group1 (matcher true (afterLabel stop) (MState s g) Some)
    = Some (Some (upTo test (trimStart s))).
Proof.
  intros Hc Htest Hend s g. unfold afterLabel.
  rewrite matcher_Seq, matcher_Star. cbn [rest]. rewrite greedy_ws.
  - now apply capture_upTo.
  - intros [t g'] H.
    pose proof (capture_upTo stop test Hc Htest Hend t g') as E.
    rewrite H in E. discriminate.
Qed.

(** The three stops, as tests on the text ahead. *)
Lemma stop_test_one (a : jsstring) (s : jsstring) (g : option jsstring) :
  matcher true (Alt (Lit a) EndOfInput) (MState s g) Some = None
  <-> startsWithIgnoreCase s a || isEmpty s = false.
Proof.
  rewrite matcher_Alt, matcher_Lit. cbn [matcher rest].
  destruct (startsWithIgnoreCase s a), s; cbn; split; congruence.
Qed.

Lemma stop_test_two (a b : jsstring) (s : jsstring) (g : option jsstring) :
  matcher true (Alt (Lit a) (Alt (Lit b) EndOfInput)) (MState s g) Some = None
  <-> startsWithIgnoreCase s a || startsWithIgnoreCase s b || isEmpty s = false.
Proof.
  rewrite !matcher_Alt, !matcher_Lit. cbn [matcher rest].
  destruct (startsWithIgnoreCase s a), (startsWithIgnoreCase s b), s;
    cbn; split; congruence.
Qed.

Lemma afterLabel_total (stop : regex) (test : jsstring -> bool) :
  hasCapture stop = false ->
  (forall s g, matcher true stop (MState s g) Some = None <-> test s = false) ->
  test [] = true ->
  forall st, matcher true (afterLabel stop) st Some <> None.
Proof.
  intros Hc Htest Hend [s g] H.
  pose proof (afterLabel_upTo stop test Hc Htest Hend s g) as E.
  rewrite H in E. discriminate.
Qed.

(** A literal followed by one more pattern character, in front of any
    continuation. *)
Lemma matcher_Lit_Chr_then (p : jsstring) (c : code_unit) (st : mstate)
      (k : mstate -> option mstate) :
  matcher true (Lit p) st (fun st' => matcher true (Chr c) st' k)
  = if startsWithIgnoreCase (rest st) (p ++ [c])
    then k (MState (skipn (List.length (p ++ [c])) (rest st)) (group1 st))
    else None.
Proof.
  rewrite matcher_Lit, startsWithIgnoreCase_app.
  destruct (startsWithIgnoreCase (rest st) p); [|reflexivity].
  cbn [matcher rest group1 andb].
  rewrite length_app, Nat.add_comm, <- skipn_skipn.
  destruct (skipn (List.length p) (rest st)) as [|b s]; [reflexivity|].
  cbn [startsWithIgnoreCase Canonicalize List.length skipn].
  destruct (toUpper b =? toUpper c); reflexivity.
Qed.

Lemma keep_first (x y : option mstate) :
  x <> None -> match x with Some res => Some res | None => y end = x.
Proof. now destruct x. Qed.

(** The label of the description pattern, in front of a continuation that
    cannot fail. *)
Lemma description_label (k : mstate -> option mstate) (st : mstate) :
  (forall x, k x <> None) ->
  matcher true
    (Seq (Alt (Lit (js "Description"))
         (Alt (Lit (js "1."))
         (Alt (Lit (js "2."))
         (Alt (Lit (js "3."))
         (Alt (Lit (js "4."))
              (Lit (js "5.")))))))
         (Chr 0x3A)) st k
  = match descriptionLabel (rest st) with
    | Some n => k (MState (skipn n (rest st)) (group1 st))
    | None => None
    end.
Proof.
  intros Hk. rewrite matcher_Seq, !matcher_Alt, !matcher_Lit_Chr_then.
  unfold descriptionLabel.
  change (js "Description" ++ [58]) with (js "Description:").
  change (js "1." ++ [58]) with (js "1.:").
  change (js "2." ++ [58]) with (js "2.:").
  change (js "3." ++ [58]) with (js "3.:").
  change (js "4." ++ [58]) with (js "4.:").
  change (js "5." ++ [58]) with (js "5.:").
  change (List.length (js "Description:")) with 12%nat.
  change (List.length (js "1.:")) with 3%nat.
  change (List.length (js "2.:")) with 3%nat.
  change (List.length (js "3.:")) with 3%nat.
  change (List.length (js "4.:")) with 3%nat.
  change (List.length (js "5.:")) with 3%nat.
  repeat match goal with
         | |- context [startsWithIgnoreCase (rest st) ?l] =>
             destruct (startsWithIgnoreCase (rest st) l);
             cbn [orb]; cbv iota;
             [first [reflexivity | now apply keep_first]|]
         end.
  reflexivity.
Qed.

(** [s.match(re)[1]] for a pattern that matches where a label starts and
    then extracts [extract] of what follows the label. *)
Lemma exec_afterFirst (re : RegExp) (labelLength : jsstring -> option nat)
      (extract : jsstring -> jsstring) :
  (forall x, option_map group1 (matchAt re x)
             = option_map (fun n => Some (extract (skipn n x)))
                          (labelLength x)) ->
  forall row,
    option_map at1 (exec re row)
    = option_map extract (afterFirst labelLength row).
Proof.
  intros H. induction row as [|c row IH]; cbn [exec afterFirst].
  - specialize (H []). destruct (matchAt re []), (labelLength []);
      cbn in H |- *; try discriminate; [|reflexivity].
    unfold at1. cbn [capture1]. inversion H as [E]. now rewrite E.
  - specialize (H (c :: row)).
    destruct (matchAt re (c :: row)), (labelLength (c :: row));
      cbn in H |- *; try discriminate; [|exact IH].
    unfold at1. cbn [capture1]. inversion H as [E]. now rewrite E.
Qed.

Lemma descRe_extracts (row : jsstring) :
  option_map at1 (exec descRe row)
  = option_map (fun after => upTo descriptionStop (trimStart after))
               (afterFirst descriptionLabel row).
Proof.
  apply exec_afterFirst. intros x. unfold matchAt.
  cbn [descRe pattern ignoreCase]. unfold labelled.
  fold (afterLabel (Alt (Lit (js "Options:"))
                        (Alt (Lit (js "Answer:")) EndOfInput))).
  rewrite matcher_Seq, description_label
    by (apply (afterLabel_total _ descriptionStop);
        [reflexivity | intros; apply stop_test_two | reflexivity]).
  cbn [rest group1]. destruct (descriptionLabel x); [|reflexivity].
  cbn [option_map].
  apply (afterLabel_upTo _ descriptionStop);
    [reflexivity | intros; apply stop_test_two | reflexivity].
Qed.

Lemma optRe_extracts (row : jsstring) :
  option_map at1 (exec optRe row)
  = option_map (fun after => upTo optionsStop (trimStart after))
               (afterFirst optionsLabel row).
Proof.
  apply exec_afterFirst. intros x. unfold matchAt.
  cbn [optRe pattern ignoreCase]. unfold labelled.
  fold (afterLabel (Alt (Lit (js "Answer:")) EndOfInput)).
  rewrite matcher_Seq, matcher_Lit. cbn [rest group1].
  unfold optionsLabel.
  destruct (startsWithIgnoreCase x (js "Options:")); [|reflexivity].
  cbn [option_map].
  apply (afterLabel_upTo _ optionsStop);
    [reflexivity | intros; apply stop_test_one | reflexivity].
Qed.

Lemma ansRe_extracts (row : jsstring) :
  option_map at1 (exec ansRe row)
  = option_map (fun after => upTo answerStop (trimStart after))
               (afterFirst answerLabel row).
Proof.
  apply exec_afterFirst. intros x. unfold matchAt.
  cbn [ansRe pattern ignoreCase]. unfold labelled.
  fold (afterLabel (Alt (Lit (js "Skill:"))
                        (Alt (Lit (js "Type:")) EndOfInput))).
  rewrite matcher_Seq, matcher_Lit. cbn [rest group1].
  unfold answerLabel.
  destruct (startsWithIgnoreCase x (js "Answer:")); [|reflexivity].
  cbn [option_map].
  apply (afterLabel_upTo _ answerStop);
    [reflexivity | intros; apply stop_test_two | reflexivity].
Qed.

(** Attempt 2 in terms of the labelled texts of the row. *)
Lemma strategyB_labelledText (uuid row : jsstring) (dS dT : value) :
  strategyB uuid row dS dT
  = match labelledText descriptionLabel descriptionStop row,
          labelledText answerLabel answerStop row with
    | Some d, Some a =>
        let decoded :=
          match isString dT MultipleChoice,
                labelledText optionsLabel optionsStop row with
          | true, Some o => decodeOptions o
          | _, _ => VNull
          end in
        Some {| id := uuid;
                description := d;
                options := if truthy decoded then decoded
                           else if isString dT MultipleChoice
                                then VArray [] else VNull;
                answer := a;
                skill := dS;
                type := dT |}
    | _, _ => None
    end.
Proof.
  unfold strategyB, labelledText.
  pose proof (descRe_extracts row) as Hd.
  pose proof (optRe_extracts row) as Ho.
  pose proof (ansRe_extracts row) as Ha.
  destruct (exec descRe row) as [d|],
           (afterFirst descriptionLabel row) as [ad|];
    cbn [option_map] in Hd |- *; try discriminate; [|reflexivity].
  destruct (exec ansRe row) as [a|],
           (afterFirst answerLabel row) as [aa|];
    cbn [option_map] in Ha |- *; try discriminate; [|reflexivity].
  inversion Hd as [Ed]. inversion Ha as [Ea].
  destruct (exec optRe row) as [o|],
           (afterFirst optionsLabel row) as [ao|];
    cbn [option_map] in Ho |- *; try discriminate.
  - inversion Ho as [Eo]. reflexivity.
  - reflexivity.
Qed.

(** Attempt 2 without patterns.  The description is the text after the
    leftmost description label, from its first non-white-space position up
    to the next "Options:" or "Answer:" (in any letter case) or the end,
    trimmed; the answer is the text after the leftmost "Answer:" up to the
    next "Skill:" or "Type:" or the end, trimmed; the options text, read
    only when the default type is "Multiple Choice", is the text after the
    leftmost "Options:" up to the next "Answer:" or the end, trimmed. *)
Theorem strategyB_extracts (uuid row : jsstring) (dS dT : value) :
  strategyB uuid row dS dT
  = match labelledText descriptionLabel descriptionStop row,
          labelledText answerLabel answerStop row with
    | Some d, Some a =>
        let decoded :=
          match isString dT MultipleChoice,
                labelledText optionsLabel optionsStop row with
          | true, Some o => decodeOptions o
          | _, _ => VNull
          end in
        Some {| id := uuid;
                description := d;
                options := if truthy decoded then decoded
                           else if isString dT MultipleChoice
                                then VArray [] else VNull;
                answer := a;
                skill := dS;
                type := dT |}
    | _, _ => None
    end.
Proof. exact (strategyB_labelledText uuid row dS dT). Qed.

(** *** A labelled row read back *)

Lemma afterFirst_unfold (f : jsstring -> option nat) (s : jsstring) :
  afterFirst f s
  = match f s with
    | Some n => Some (skipn n s)
    | None =>
        match s with
        | [] => None
        | _ :: tl => afterFirst f tl
        end
    end.
Proof. destruct s; reflexivity. Qed.

Lemma upTo_unfold (stop : jsstring -> bool) (s : jsstring) :
  upTo stop s
  = if stop s then []
    else match s with
         | [] => []
         | c :: tl => c :: upTo stop tl
         end.
Proof. destruct s; reflexivity. Qed.

Lemma toUpper_colon (b : code_unit) : toUpper b = 0x3A -> b = 0x3A.
Proof.
  unfold toUpper, isLower.
  destruct (N.leb_spec 0x61 b), (N.leb_spec b 0x7A); cbn [andb]; lia.
Qed.

(** A label ends with its colon. *)
Lemma label_colon (l s : jsstring) :
  startsWithIgnoreCase s (l ++ [0x3A]) = true ->
  nth_error s (List.length l) = Some 0x3A.
Proof.
  rewrite startsWithIgnoreCase_app, <- hd_error_skipn.
  intros H. apply andb_true_iff in H as [_ H].
  destruct (skipn (List.length l) s) as [|b t]; [discriminate|].
  cbn [startsWithIgnoreCase] in H. apply andb_true_iff in H as [H _].
  apply N.eqb_eq in H. change (toUpper 58) with 58 in H.
  apply toUpper_colon in H. now subst.
Qed.

Lemma noColon_nth (x : jsstring) (i : nat) :
  noColon x = true -> nth_error x i = Some 0x3A -> False.
Proof.
  unfold noColon. rewrite forallb_forall. intros H Hn.
  apply nth_error_In in Hn. apply H in Hn. discriminate.
Qed.

Lemma noColon_app_nth (x t : jsstring) (i : nat) :
  noColon x = true ->
  nth_error (x ++ t) i = Some 0x3A ->
  (List.length x <= i)%nat /\ nth_error t (i - List.length x) = Some 0x3A.
Proof.
  intros Hx H. rewrite nth_error_app in H.
  destruct (Nat.ltb_spec i (List.length x)).
  - exfalso. now apply (noColon_nth x i).
  - now split.
Qed.

(** A text without colon holds no label. *)
Lemma noColon_no_label (l z : jsstring) :
  noColon z = true -> startsWithIgnoreCase z (l ++ [0x3A]) = false.
Proof.
  intros Hz. destruct (startsWithIgnoreCase z (l ++ [0x3A])) eqn:E;
    [|reflexivity].
  apply label_colon in E. exfalso. now apply (noColon_nth z _ Hz E).
Qed.

Lemma noColon_tail (c : code_unit) (x : jsstring) :
  noColon (c :: x) = true -> noColon x = true.
Proof. unfold noColon. simpl. intros H. now apply andb_true_iff in H. Qed.

(** No code unit of "Answer:" before its colon is a colon. *)
Lemma answerText_colon (y : jsstring) (j : nat) :
  (j <= 5)%nat -> nth_error (answerText ++ y) j = Some 0x3A -> False.
Proof.
  intros Hj H.
  do 6 (destruct j as [|j]; [discriminate|]). lia.
Qed.

(** In front of "Answer:" a text without colon holds no stop of the
    description pattern and no answer or options label. *)
Lemma before_answer_no_answer (x y : jsstring) (c : code_unit) :
  noColon (c :: x) = true ->
  startsWithIgnoreCase ((c :: x) ++ answerText ++ y) (js "Answer:") = false.
Proof.
  intros Hx.
  destruct (startsWithIgnoreCase _ (js "Answer:")) eqn:E; [|reflexivity].
  apply (label_colon (js "Answer")) in E.
  apply (noColon_app_nth _ _ _ Hx) in E as [Hlen E].
  exfalso. apply (answerText_colon y _) in E; [exact E|].
  change (List.length (js "Answer")) with 6%nat in *.
  cbn [List.length] in *. lia.
Qed.

Lemma before_answer_no_options (x y : jsstring) (c : code_unit) :
  noColon (c :: x) = true ->
  startsWithIgnoreCase ((c :: x) ++ answerText ++ y) (js "Options:") = false.
Proof.
  intros Hx.
  destruct (startsWithIgnoreCase _ (js "Options:")) eqn:E; [|reflexivity].
  pose proof E as E'.
  apply (label_colon (js "Options")) in E.
  apply (noColon_app_nth _ _ _ Hx) in E as [Hlen E].
  change (List.length (js "Options")) with 7%nat in *.
  cbn [List.length] in *.
  destruct x as [|d x].
  - exfalso. clear E Hlen. cbn in E'.
    destruct (toUpper c =? 79); discriminate.
  - exfalso. apply (answerText_colon y _) in E; [exact E|].
    cbn [List.length]. lia.
Qed.

Lemma upTo_before_answer (x y : jsstring) :
  noColon x = true ->
  upTo descriptionStop (x ++ answerText ++ y) = x.
Proof.
  induction x as [|c x IH]; intros Hx.
  - reflexivity.
  - rewrite upTo_unfold. unfold descriptionStop.
    rewrite (before_answer_no_answer x y c Hx),
            (before_answer_no_options x y c Hx).
    cbn [orb app isEmpty]. f_equal. apply IH. now apply noColon_tail in Hx.
Qed.

Lemma upTo_noColon (z : jsstring) :
  noColon z = true -> upTo answerStop z = z.
Proof.
  induction z as [|c z IH]; intros Hz; [reflexivity|].
  rewrite upTo_unfold. unfold answerStop.
  pose proof (noColon_no_label (js "Skill") _ Hz) as H1.
  pose proof (noColon_no_label (js "Type") _ Hz) as H2.
  change (js "Skill" ++ [58]) with (js "Skill:") in H1.
  change (js "Type" ++ [58]) with (js "Type:") in H2.
  rewrite H1, H2. cbn [orb isEmpty]. f_equal. apply IH. now apply noColon_tail in Hz.
Qed.

Lemma afterFirst_answer (x y : jsstring) :
  noColon x = true ->
  afterFirst answerLabel (x ++ answerText ++ y) = Some y.
Proof.
  induction x as [|c x IH]; intros Hx.
  - reflexivity.
  - rewrite afterFirst_unfold. unfold answerLabel at 1.
    rewrite (before_answer_no_answer x y c Hx). cbn [app].
    apply IH. now apply noColon_tail in Hx.
Qed.

Lemma afterFirst_options_noColon (z : jsstring) :
  noColon z = true -> afterFirst optionsLabel z = None.
Proof.
  induction z as [|c z IH]; intros Hz; [reflexivity|].
  rewrite afterFirst_unfold. unfold optionsLabel at 1.
  pose proof (noColon_no_label (js "Options") _ Hz) as H1.
  change (js "Options" ++ [58]) with (js "Options:") in H1.
  rewrite H1. apply IH. now apply noColon_tail in Hz.
Qed.

Lemma afterFirst_skip (f : jsstring -> option nat) (c : code_unit)
      (s : jsstring) :
  f (c :: s) = None -> afterFirst f (c :: s) = afterFirst f s.
Proof. intros H. now rewrite afterFirst_unfold, H. Qed.

Lemma first_mismatch (c a : code_unit) (s p : jsstring) :
  (toUpper c =? toUpper a) = false ->
  startsWithIgnoreCase (c :: s) (a :: p) = false.
Proof. intros H. cbn [startsWithIgnoreCase]. now rewrite H. Qed.

Lemma second_mismatch (c a d b : code_unit) (s p : jsstring) :
  (toUpper d =? toUpper b) = false ->
  startsWithIgnoreCase (c :: d :: s) (a :: b :: p) = false.
Proof.
  intros H. cbn [startsWithIgnoreCase]. rewrite H. apply andb_false_r.
Qed.

Lemma answerLabel_mismatch (c : code_unit) (s : jsstring) :
  (toUpper c =? 0x41) = false -> answerLabel (c :: s) = None.
Proof.
  intros H. unfold answerLabel.
  change (js "Answer:") with (0x41 :: js "nswer:").
  now rewrite (first_mismatch c 0x41 s _ H).
Qed.

Lemma optionsLabel_mismatch (c : code_unit) (s : jsstring) :
  (toUpper c =? 0x4F) = false -> optionsLabel (c :: s) = None.
Proof.
  intros H. unfold optionsLabel.
  change (js "Options:") with (0x4F :: js "ptions:").
  now rewrite (first_mismatch c 0x4F s _ H).
Qed.

Lemma optionsLabel_mismatch2 (c d : code_unit) (s : jsstring) :
  (toUpper d =? 0x50) = false -> optionsLabel (c :: d :: s) = None.
Proof.
  intros H. unfold optionsLabel.
  change (js "Options:") with (0x4F :: 0x70 :: js "tions:").
  now rewrite (second_mismatch c 0x4F d 0x70 s _ H).
Qed.

Lemma description_cons (r : jsstring) :
  js "Description:" ++ r
  = 68 :: 101 :: 115 :: 99 :: 114 :: 105 :: 112 :: 116 :: 105 :: 111
       :: 110 :: 58 :: r.
Proof. reflexivity. Qed.

Lemma answer_cons (r : jsstring) :
  answerText ++ r = 65 :: 110 :: 115 :: 119 :: 101 :: 114 :: 58 :: r.
Proof. reflexivity. Qed.

Lemma afterFirst_options_answer (x y : jsstring) :
  noColon x = true -> noColon y = true ->
  afterFirst optionsLabel (x ++ answerText ++ y) = None.
Proof.
  intros Hx Hy. induction x as [|c x IH].
  - cbn [app]. rewrite answer_cons.
    rewrite !afterFirst_skip by (now apply optionsLabel_mismatch).
    now apply afterFirst_options_noColon.
  - rewrite afterFirst_unfold. unfold optionsLabel at 1.
    rewrite (before_answer_no_options x y c Hx). cbn [app].
    apply IH. now apply noColon_tail in Hx.
Qed.

Lemma startsWithIgnoreCase_self (p s : jsstring) :
  startsWithIgnoreCase (p ++ s) p = true.
Proof.
  induction p as [|a p IH]; [reflexivity|].
  cbn [app startsWithIgnoreCase]. now rewrite N.eqb_refl, IH.
Qed.

Lemma noColon_trimStart (x : jsstring) :
  noColon x = true -> noColon (trimStart x) = true.
Proof.
  intros H. destruct (trimStart_split x) as (pre & Hx & _).
  rewrite Hx in H. unfold noColon in H. rewrite forallb_app in H.
  now apply andb_true_iff in H.
Qed.

Lemma trim_trimStart (x : jsstring) : trim (trimStart x) = trim x.
Proof. unfold trim. now rewrite trimStart_idem. Qed.

(** A row written as "Description:", a description, "Answer:", an answer,
    where neither text holds a colon, is read back by attempt 2 as exactly
    that description and that answer, trimmed, with the caller's defaults
    and no options text. *)
Theorem labelled_row_read_back
        (rng : nat -> jsstring) (st : ParserState) (X Y : jsstring)
        (dS dT : value) :
  noColon X = true ->
  noColon Y = true ->
  let row := js "Description:" ++ X ++ answerText ++ Y in
  let q := {| id := rng (drawn st);
              description := trim X;
              options := if isString dT MultipleChoice
                         then VArray [] else VNull;
              answer := trim Y;
              skill := dS;
              type := dT |} in
  strategyB (rng (drawn st)) row dS dT = Some q
  /\ (includes row fieldDelimiter = false ->
      parseRow rng dS dT st row = push q st).
Proof.
  intros HX HY row q.
  assert (Hd : labelledText descriptionLabel descriptionStop row
               = Some (trim X)).
  { unfold labelledText, row. rewrite afterFirst_unfold.
    unfold descriptionLabel at 1. rewrite startsWithIgnoreCase_self.
    change (skipn 12 (js "Description:" ++ X ++ answerText ++ Y))
      with (X ++ answerText ++ Y).
    cbn [option_map]. rewrite trimStart_app by reflexivity.
    rewrite upTo_before_answer by now apply noColon_trimStart.
    now rewrite trim_trimStart. }
  assert (Ha : labelledText answerLabel answerStop row = Some (trim Y)).
  { unfold labelledText, row. rewrite description_cons.
    rewrite !afterFirst_skip by (now apply answerLabel_mismatch).
    rewrite afterFirst_answer by exact HX. cbn [option_map].
    rewrite upTo_noColon by now apply noColon_trimStart.
    now rewrite trim_trimStart. }
  assert (Ho : labelledText optionsLabel optionsStop row = None).
  { unfold labelledText, row. rewrite description_cons.
    rewrite !afterFirst_skip by (now apply optionsLabel_mismatch).
    rewrite afterFirst_skip by (now apply optionsLabel_mismatch2).
    rewrite !afterFirst_skip by (now apply optionsLabel_mismatch).
    now rewrite afterFirst_options_answer. }
  assert (HB : strategyB (rng (drawn st)) row dS dT = Some q).
  { rewrite strategyB_labelledText, Hd, Ha, Ho. subst q.
    destruct (isString dT MultipleChoice); reflexivity. }
  split; [exact HB|].
  intros Hfd. unfold parseRow.
  now rewrite strategyA_includes, Hfd, HB.
Qed.

Lemma labelled_row_read_back_witness :
  strategyB (js "id-0") (js "Description: What is 2+2? Answer: 4 ")
            (VString (js "Math")) (VString (js "Essay"))
  = Some {| id := js "id-0"; description := js "What is 2+2?";
            options := VNull; answer := js "4";
            skill := VString (js "Math"); type := VString (js "Essay") |}.
Proof.
  exact (proj1 (labelled_row_read_back (fun _ => js "id-0")
                  {| questions := []; drawn := 0 |}
                  (js " What is 2+2? ") (js " 4 ")
                  (VString (js "Math")) (VString (js "Essay"))
                  eq_refl eq_refl)).
Defined.

End LabelFacts.

(** ** The options clean-up, continued *)

Module OptionsFacts.

(** *** The primary decode of a quoted list *)

Lemma lex_skip (pre s : jsstring) : lex (List.length pre) (pre ++ s) = lex 0 s.
Proof. induction pre as [|c pre IH]; [reflexivity | exact IH]. Qed.

Lemma lex_lbracket (s : jsstring) :
  lex 0 (0x5B :: s) = consTok TLBracket (lex 0 s).
Proof. reflexivity. Qed.

Lemma lex_rbracket (s : jsstring) :
  lex 0 (0x5D :: s) = consTok TRBracket (lex 0 s).
Proof. reflexivity. Qed.

Lemma lex_comma_space (s : jsstring) :
  lex 0 (0x2C :: 0x20 :: s) = consTok TComma (lex 0 s).
Proof. reflexivity. Qed.

Lemma lex_dquote (s : jsstring) :
  lex 0 (DQUOTE :: s)
  = match lexString s with
    | Some (str, n) => consTok (TLit (VString str)) (lex n s)
    | None => None
    end.
Proof. reflexivity. Qed.

Lemma plainOption_cons (c : code_unit) (o : jsstring) :
  plainOption (c :: o) = true ->
  (c =? DQUOTE) = false /\ (c =? BACKSLASH) = false /\ (c <? 0x20) = false
  /\ isSingleQuote c = false /\ plainOption o = true.
Proof.
  unfold plainOption. cbn [forallb]. intros H.
  apply andb_true_iff in H as [H Ho].
  apply andb_true_iff in H as [H H4]. apply andb_true_iff in H as [H H3].
  apply andb_true_iff in H as [H1 H2].
  unfold isDoubleQuote in H3. unfold DQUOTE.
  apply negb_true_iff in H2, H3, H4. apply N.leb_le in H1.
  repeat split; try assumption. apply N.ltb_ge. exact H1.
Qed.

(** A string literal without escapes is read as its own text. *)
Lemma lexString_plain (o rest : jsstring) :
  plainOption o = true ->
  lexString (o ++ DQUOTE :: rest) = Some (o, List.length (o ++ [DQUOTE])).
Proof.
  induction o as [|c o IH]; intros Ho.
  - reflexivity.
  - apply plainOption_cons in Ho as (H1 & H2 & H3 & _ & Ho).
    cbn [app lexString]. rewrite H1, H2, H3, (IH Ho). reflexivity.
Qed.

Lemma lex_dquoted (o rest : jsstring) :
  plainOption o = true ->
  lex 0 (dquoted o ++ rest) = consTok (TLit (VString o)) (lex 0 rest).
Proof.
  intros Ho. unfold dquoted. cbn [app]. rewrite <- app_assoc. cbn [app].
  rewrite lex_dquote, (lexString_plain o rest Ho).
  change (o ++ DQUOTE :: rest) with (o ++ [DQUOTE] ++ rest).
  now rewrite app_assoc, lex_skip.
Qed.

Lemma lex_join (os : list jsstring) :
  forall o rest ts,
    forallb plainOption (o :: os) = true ->
    lex 0 rest = Some ts ->
    lex 0 (join (js ", ") (map dquoted (o :: os)) ++ rest)
    = Some (TLit (VString o) :: restTokens os ++ ts).
Proof.
  induction os as [|o2 os IH]; intros o rest ts Hp Hrest.
  - cbn [map join forallb] in *. apply andb_true_iff in Hp as [Ho _].
    now rewrite (lex_dquoted o rest Ho), Hrest.
  - cbn [forallb] in Hp. apply andb_true_iff in Hp as [Ho Hp].
    change (join (js ", ") (map dquoted (o :: o2 :: os)))
      with (dquoted o ++ js ", " ++ join (js ", ") (map dquoted (o2 :: os))).
    rewrite <- !app_assoc, (lex_dquoted o _ Ho).
    change (js ", " ++ join (js ", ") (map dquoted (o2 :: os)) ++ rest)
      with (0x2C :: 0x20
              :: (join (js ", ") (map dquoted (o2 :: os)) ++ rest)).
    rewrite lex_comma_space, (IH o2 rest ts Hp Hrest). reflexivity.
Qed.

Lemma run_elements (os : list jsstring) :
  forall o acc,
    run ([FArray acc], MDone (VString o)) (restTokens os ++ [TRBracket])
    = Some (VArray (rev acc ++ map VString (o :: os))).
Proof.
  induction os as [|o2 os IH]; intros o acc.
  - reflexivity.
  - cbn [restTokens flat_map app run step startValue].
    fold (restTokens os). rewrite IH. cbn [rev map].
    now rewrite <- app_assoc.
Qed.

(** What the first replacement makes of a quoted list. *)
Lemma sanitized_quotedList (opts : list jsstring) :
  forallb plainOption opts = true ->
  map (fun c => if isSingleQuote c then DQUOTE else c) (quotedList opts)
  = js "[" ++ join (js ", ") (map dquoted opts) ++ js "]".
Proof.
  intros Hp. unfold quotedList. rewrite !map_app. f_equal. f_equal.
  induction opts as [|o opts IH]; [reflexivity|].
  cbn [forallb] in Hp. apply andb_true_iff in Hp as [Ho Hp].
  assert (Hq : map (fun c => if isSingleQuote c then DQUOTE else c)
                   (js "'" ++ o ++ js "'") = dquoted o).
  { unfold dquoted. rewrite !map_app. cbn [js list_ascii_of_string map app].
    f_equal. f_equal. clear IH Hp.
    induction o as [|c o IHo]; [reflexivity|].
    apply plainOption_cons in Ho as (_ & _ & _ & Hc & Ho).
    cbn [map]. now rewrite Hc, (IHo Ho). }
  destruct opts as [|o2 opts].
  - cbn [map join]. exact Hq.
  - change (join (js ", ")
              (map (fun o0 => js "'" ++ o0 ++ js "'") (o :: o2 :: opts)))
      with ((js "'" ++ o ++ js "'") ++ js ", "
            ++ join (js ", ")
                 (map (fun o0 => js "'" ++ o0 ++ js "'") (o2 :: opts))).
    change (join (js ", ") (map dquoted (o :: o2 :: opts)))
      with (dquoted o ++ js ", "
            ++ join (js ", ") (map dquoted (o2 :: opts))).
    rewrite map_app, Hq, map_app, (IH Hp). reflexivity.
Qed.

(** The primary decode reads a list literal ['o1', 'o2', ...] back as the
    list of its option texts, in order, when no option text holds a quote,
    a backslash or a control character. *)
Theorem decodeOptions_quotedList (opts : list jsstring) :
  forallb plainOption opts = true ->
  decodeOptions (quotedList opts) = VArray (map VString opts).
Proof.
  intros Hp. unfold decodeOptions.
  rewrite replace_quoteRe, (sanitized_quotedList opts Hp).
  unfold Json.parse. change (js "[" ++ ?x) with (0x5B :: x).
  rewrite lex_lbracket. destruct opts as [|o os].
  - reflexivity.
  - rewrite (lex_join os o (js "]") [TRBracket] Hp eq_refl).
    cbn [consTok run step startValue].
    now rewrite run_elements.
Qed.

Lemma decodeOptions_quotedList_witness :
  decodeOptions (js "['Opt A', 'Opt B', 'x = [1, 2]']")
  = VArray [VString (js "Opt A"); VString (js "Opt B");
            VString (js "x = [1, 2]")].
Proof.
  exact (decodeOptions_quotedList
           [js "Opt A"; js "Opt B"; js "x = [1, 2]"] eq_refl).
Defined.

(** *** The fallback decode *)

Lemma split_from_one_no_sep (x : code_unit) (s : jsstring) :
  let '(h, t) := split_from [x] 0 s in
  ~ In x h /\ forall p, In p t -> ~ In x p.
Proof.
  induction s as [|c s IH]; cbn [split_from].
  - split; [intros [] | intros p []].
  - change (List.length [x] - 1)%nat with 0%nat.
    destruct (split_from [x] 0 s) as [h t]. destruct IH as [Hh Ht].
    cbn [startsWith]. rewrite andb_true_r.
    destruct (N.eqb_spec x c) as [->|Hne].
    + split; [intros [] | intros p [<-|Hp]]; [exact Hh | now apply Ht].
    + split; [|exact Ht]. intros [Hc|Hc]; [congruence | now apply Hh].
Qed.

(** No piece of a split on one code unit holds that code unit. *)
Lemma split_one_no_sep (x : code_unit) (s p : jsstring) :
  In p (split s [x]) -> ~ In x p.
Proof.
  unfold split. pose proof (split_from_one_no_sep x s) as H.
  destruct (split_from [x] 0 s) as [h t]. destruct H as [Hh Ht].
  intros [<-|Hp]; [exact Hh | now apply Ht].
Qed.

(** Every option the fallback decode returns is non-empty and trimmed,
    holds no comma, square bracket or single quote, and holds only code
    units of the options text. *)
Theorem fallbackOptions_clean (optionsStr : jsstring) :
  Forall (fun o => nonEmpty o = true
                   /\ trim o = o
                   /\ forallb cleanOptionChar o = true
                   /\ incl o optionsStr)
         (fallbackOptions optionsStr).
Proof.
  apply Forall_forall. intros o Ho. unfold fallbackOptions in Ho.
  apply filter_In in Ho as [Ho Hne]. apply in_map_iff in Ho as (p & <- & Hp).
  rewrite replace_bracketQuoteRe in Hp.
  split; [exact Hne|]. split; [apply trim_idem|].
  assert (Hchars : forall c, In c (trim p) ->
                             cleanOptionChar c = true /\ In c optionsStr).
  { intros c Hc. apply In_trim in Hc.
    pose proof (split_one_no_sep 0x2C _ p Hp) as Hcomma.
    apply NormalizerFacts.split_parts in Hp as (a & b & Hs).
    assert (Hin : In c (strip (fun c0 => isSquareBracket c0 || isSingleQuote c0)
                               optionsStr)).
    { rewrite Hs. apply in_or_app. right. apply in_or_app. now left. }
    unfold strip in Hin. apply filter_In in Hin as [Hin Hkeep].
    split; [|exact Hin]. unfold cleanOptionChar.
    apply negb_true_iff in Hkeep. rewrite Hkeep. cbn [orb].
    apply negb_true_iff. apply N.eqb_neq. intros ->. now apply Hcomma. }
  split.
  - apply forallb_forall. intros c Hc. now apply Hchars.
  - intros c Hc. now apply Hchars.
Qed.

(** Attempt 2 never emits falsy options, null included, for the default
    type "Multiple Choice". *)
Theorem strategyB_choice_options_present
        (uuid row : jsstring) (dS dT : value) (q : Question) :
  strategyB uuid row dS dT = Some q ->
  isString (type q) MultipleChoice = true ->
  truthy (options q) = true.
Proof.
  unfold strategyB. destruct (exec descRe row); [|discriminate].
  destruct (exec ansRe row); [|discriminate].
  intros H. inversion H. cbn [type options]. intros ->.
  match goal with |- truthy (if truthy ?o then _ else _) = true =>
    destruct (truthy o) eqn:E; [exact E | reflexivity] end.
Qed.

Lemma strategyB_choice_options_present_witness :
  let row := js "Description: Q Options: null Answer: A" in
  let q := {| id := js "id-0"; description := js "Q"; options := VArray [];
              answer := js "A"; skill := VString (js "Reading");
              type := VString MultipleChoice |} in
  strategyB (js "id-0") row (VString (js "Reading")) (VString MultipleChoice)
  = Some q
  /\ truthy (options q) = true.
Proof.
  intros row q. split; [reflexivity|].
  exact (strategyB_choice_options_present (js "id-0") row
           (VString (js "Reading")) (VString MultipleChoice) q
           eq_refl eq_refl).
Defined.

End OptionsFacts.

(** ** The handler, continued *)

Module HandlerPaths.

Ltac settle :=
  cbn; repeat split; intros;
  try reflexivity; try tauto; try discriminate;
  try match goal with H : ex _ |- ex _ => exact H end;
  try (exfalso; cbn in *; intuition discriminate).

(** For every environment and every outcome of the outside operations: the
    upstream is called at most once and the parser at most once, after it;
    the upstream is called only with both configuration values set and the
    three request fields truthy; the parser is called only after the
    upstream replied with a success status; a payload of questions comes
    with status 200 and both calls made. *)
Theorem POST_call_discipline (env : Environment) (w : World) :
  let '(response, calls) := POST env w in
  (calls = [] \/ calls = [CalledUpstream]
   \/ calls = [CalledUpstream; CalledParser])
  /\ (In CalledUpstream calls ->
      unset (DIFY_HOST env) = false /\ unset (DIFY_API_KEY env) = false
      /\ exists req range skill type,
           requestJson w = Returned req
           /\ getProp req (js "range") = Some range
           /\ getProp req (js "skill") = Some skill
           /\ getProp req (js "type") = Some type
           /\ truthy range && truthy skill && truthy type = true)
  /\ (In CalledParser calls ->
      exists upstream, fetchResult w = Returned upstream
                       /\ ok upstream = true)
  /\ (forall qs raw, body response = QuestionsBody qs raw ->
                     status response = 200
                     /\ calls = [CalledUpstream; CalledParser]).
Proof.
  unfold POST.
  destruct (unset (DIFY_HOST env)) eqn:Hh; [settle|].
  destruct (unset (DIFY_API_KEY env)) eqn:Hk; [settle|].
  cbn [orb]. unfold tryBlock.
  destruct (requestJson w) as [req|m] eqn:Hreq; [|settle].
  destruct (getProp req (js "range")) as [range|] eqn:Hr; [|settle].
  destruct (getProp req (js "skill")) as [skill|] eqn:Hs; [|settle].
  destruct (getProp req (js "type")) as [type|] eqn:Ht; [|settle].
  destruct (truthy range && truthy skill && truthy type) eqn:Htruthy.
  - replace (negb (truthy range) || negb (truthy skill)
             || negb (truthy type)) with false
      by (destruct (truthy range), (truthy skill), (truthy type);
          cbn in *; congruence).
    assert (Hup : exists req0 range0 skill0 type0,
                    Returned req = Returned req0
                    /\ getProp req0 (js "range") = Some range0
                    /\ getProp req0 (js "skill") = Some skill0
                    /\ getProp req0 (js "type") = Some type0
                    /\ truthy range0 && truthy skill0 && truthy type0 = true)
      by (exists req, range, skill, type; now repeat split).
    destruct (convertsToString range && convertsToString skill
              && convertsToString type); [|settle].
    destruct (fetchResult w) as [upstream|m]; [|settle].
    unfold NextResponse_json.
    destruct (ok upstream) eqn:Hok.
    + cbn [negb].
      assert (Hparser : exists u, Returned upstream = Returned u
                                  /\ ok u = true)
        by (exists upstream; now split).
      destruct (bodyRead upstream) as [text|m]; [|settle].
      destruct (Json.parse text) as [data|]; [|settle].
      destruct (resultStringOf data) as [[| | | | raw | |]|]; settle.
    + destruct (bodyRead upstream) as [errorText|m]; [|settle].
      destruct (validStatus (upstreamStatus upstream)); settle.
  - replace (negb (truthy range) || negb (truthy skill)
             || negb (truthy type)) with true
      by (destruct (truthy range), (truthy skill), (truthy type);
          cbn in *; congruence).
    settle.
Qed.

(** An error payload never carries an empty message. *)
Theorem POST_error_message
        (env : Environment) (w : World) (message : jsstring) :
  body (fst (POST env w)) = ErrorBody message -> isEmpty message = false.
Proof.
  unfold POST.
  destruct (unset (DIFY_HOST env) || unset (DIFY_API_KEY env)).
  - cbn. intros H. inversion H. reflexivity.
  - destruct (tryBlock w) as [[response|m] calls] eqn:Htry; cbn [fst body].
    + unfold tryBlock, NextResponse_json in Htry.
      repeat match type of Htry with
             | context [match ?x with _ => _ end] => destruct x
             end;
        inversion Htry; subst; cbn; intros H; inversion H; reflexivity.
    + destruct m; intros H; inversion H; reflexivity.
Qed.

Lemma POST_error_message_witness :
  isEmpty (js "Unexpected token < in JSON") = false.
Proof.
  exact (POST_error_message
           {| DIFY_HOST := Some (js "https://dify.example/v1");
              DIFY_API_KEY := Some (js "app-key") |}
           {| requestJson := Thrown (js "Unexpected token < in JSON");
              fetchResult := Thrown (js "unreachable");
              randomUUID := fun _ => js "id";
              typeErrorMessage := js "TypeError";
              syntaxErrorMessage := js "SyntaxError";
              statusErrorMessage := fun _ => js "RangeError" |}
           _ eq_refl).
Defined.

(** A success reply of the upstream whose body was read and is a JSON
    object without any of the keys [result], [outputs], [data] and [answer],
    to a request whose three fields are truthy and convert to strings, is
    answered with status 200, no question and the empty raw text. *)
Theorem POST_no_result_field
        (env : Environment) (w : World) (req range skill type : value)
        (upstream : UpstreamResponse) (text : jsstring)
        (members : list (jsstring * value)) :
  unset (DIFY_HOST env) = false ->
  unset (DIFY_API_KEY env) = false ->
  requestJson w = Returned req ->
  getProp req (js "range") = Some range ->
  getProp req (js "skill") = Some skill ->
  getProp req (js "type") = Some type ->
  truthy range && truthy skill && truthy type = true ->
  convertsToString range && convertsToString skill && convertsToString type
  = true ->
  fetchResult w = Returned upstream ->
  ok upstream = true ->
  bodyRead upstream = Returned text ->
  Json.parse text = Some (VObject members) ->
  lookup (js "result") members = None ->
  lookup (js "outputs") members = None ->
  lookup (js "data") members = None ->
  lookup (js "answer") members = None ->
  POST env w
  = ({| body := QuestionsBody [] []; status := 200 |},
     [CalledUpstream; CalledParser]).
Proof.
  intros Hh Hk Hreq Hr Hs Ht Htruthy Hconv Hfetch Hok Hread Hparse
         H1 H2 H3 H4.
  apply andb_true_iff in Htruthy as [Htruthy Ht3].
  apply andb_true_iff in Htruthy as [Ht1 Ht2].
  unfold POST. rewrite Hh, Hk. cbn [orb].
  unfold tryBlock.
  rewrite Hreq, Hr, Hs, Ht, Ht1, Ht2, Ht3, Hconv, Hfetch, Hok, Hread.
  cbn [negb orb].
  rewrite Hparse.
  assert (Hres : resultStringOf (VObject members) = Some (VString [])).
  { unfold resultStringOf, optProp. cbn [getProp].
    rewrite H1, H2, H3, H4. reflexivity. }
  rewrite Hres. reflexivity.
Qed.

Lemma POST_no_result_field_witness :
  let env := {| DIFY_HOST := Some (js "https://dify.example/v1");
                DIFY_API_KEY := Some (js "app-key") |} in
  let w := {| requestJson :=
                Returned (VObject [(js "range", VString (js "A1-A2"));
                                   (js "skill", VString (js "Reading"));
                                   (js "type", VString (js "Essay"))]);
              fetchResult :=
                Returned {| upstreamStatus := 200;
                            bodyRead := Returned (js "{ }") |};
              randomUUID := fun _ => js "id";
              typeErrorMessage := js "TypeError";
              syntaxErrorMessage := js "SyntaxError";
              statusErrorMessage := fun _ => js "RangeError" |} in
  POST env w
  = ({| body := QuestionsBody [] []; status := 200 |},
     [CalledUpstream; CalledParser]).
Proof.
  intros env w.
  exact (POST_no_result_field env w _ (VString (js "A1-A2"))
           (VString (js "Reading")) (VString (js "Essay"))
           {| upstreamStatus := 200; bodyRead := Returned (js "{ }") |}
           (js "{ }") []
           eq_refl eq_refl eq_refl eq_refl eq_refl eq_refl eq_refl
           eq_refl eq_refl eq_refl eq_refl eq_refl eq_refl eq_refl
           eq_refl eq_refl).
Defined.

End HandlerPaths.

(** ** A fenced block *)

Module FenceFacts.

Lemma replace_from_skip (re : RegExp) (rep pre s : jsstring) :
  replace_from re rep (List.length pre) (pre ++ s) = replace_from re rep 0 s.
Proof. induction pre as [|c pre IH]; [reflexivity | exact IH]. Qed.

(** A match that is not empty is replaced and the scan resumes after it. *)
Lemma replace_from_match (re : RegExp) (rep : jsstring) (c : code_unit)
      (m s : jsstring) (g : option jsstring) :
  matchAt re ((c :: m) ++ s) = Some (MState s g) ->
  replace_from re rep 0 ((c :: m) ++ s) = rep ++ replace_from re rep 0 s.
Proof.
  intros H. rewrite NormalizerFacts.replace_from_0, H. cbn [rest].
  replace (List.length ((c :: m) ++ s) - List.length s)%nat
    with (S (List.length m)) by (rewrite length_app; cbn [List.length]; lia).
  cbn [app]. now rewrite replace_from_skip.
Qed.

Lemma toUpper_backtick (c : code_unit) :
  (toUpper c =? 0x60) = (c =? 0x60).
Proof.
  unfold toUpper, isLower.
  destruct (N.leb_spec 0x61 c), (N.leb_spec c 0x7A); cbn [andb];
    destruct (N.eqb_spec c 0x60), (N.eqb_spec (c - 0x20) 0x60);
    try reflexivity; lia.
Qed.

(** Neither fence pattern matches where no backtick stands. *)
Lemma matchAt_fenceOpenRe_other (c : code_unit) (s : jsstring) :
  (c =? 0x60) = false -> matchAt fenceOpenRe (c :: s) = None.
Proof.
  intros H. unfold matchAt. cbn [fenceOpenRe pattern ignoreCase].
  rewrite LabelFacts.matcher_Seq. unfold backticks. rewrite matcher_Lit.
  cbn [rest]. change (js "```") with (0x60 :: js "``").
  cbn [startsWithIgnoreCase]. change (toUpper 96) with 96.
  now rewrite toUpper_backtick, H.
Qed.

Lemma fenceOpenRe_noBacktick (s t : jsstring) :
  noBacktick s = true ->
  replace_from fenceOpenRe [] 0 (s ++ t) = s ++ replace_from fenceOpenRe [] 0 t.
Proof.
  induction s as [|c s IH]; intros Hs; [reflexivity|].
  unfold noBacktick in Hs. cbn [forallb] in Hs.
  apply andb_true_iff in Hs as [Hc Hs]. apply negb_true_iff in Hc.
  cbn [app]. rewrite NormalizerFacts.replace_from_0,
    (matchAt_fenceOpenRe_other c _ Hc).
  f_equal. now apply IH.
Qed.

Lemma fenceRe_noBacktick (s : jsstring) :
  noBacktick s = true -> replace_from fenceRe [] 0 s = s.
Proof.
  induction s as [|c s IH]; intros Hs; [reflexivity|].
  unfold noBacktick in Hs. cbn [forallb] in Hs.
  apply andb_true_iff in Hs as [Hc Hs]. apply negb_true_iff in Hc.
  rewrite NormalizerFacts.fenceRe_step_other.
  - f_equal. now apply IH.
  - change fence with (0x60 :: js "``"). cbn [startsWith].
    now rewrite (N.eqb_sym 96 c), Hc.
Qed.

Lemma classAccepts_letter (c : code_unit) :
  isLetter c = true -> classAccepts true isLower c = true.
Proof.
  unfold isLetter, classAccepts. intros H.
  destruct (isLower c) eqn:Hl; [reflexivity|]. cbn [orb andb] in *.
  unfold toLower. rewrite H. apply orb_true_iff. right.
  unfold isUpper, isLower in *.
  apply andb_true_iff in H as [H1 H2].
  apply N.leb_le in H1, H2. apply andb_true_iff.
  split; apply N.leb_le; lia.
Qed.

Lemma matcher_Class_cons (ic : bool) (member : code_unit -> bool)
      (c : code_unit) (s : jsstring) (g : option jsstring)
      (k : mstate -> option mstate) :
  matcher ic (Class member) (MState (c :: s) g) k
  = if classAccepts ic member c then k (MState s g) else None.
Proof. reflexivity. Qed.

(** The greedy [[a-z]*] takes the whole language tag in front of a newline. *)
Lemma greedy_tag (k : mstate -> option mstate) (rest0 : jsstring)
      (g : option jsstring) :
  (forall st, k st <> None) ->
  forall tag,
    forallb isLetter tag = true ->
    starLoop (matcher true (Class isLower)) true k
             (List.length (tag ++ LF :: rest0)) (MState (tag ++ LF :: rest0) g)
    = k (MState (LF :: rest0) g).
Proof.
  intros Hk. induction tag as [|c tag IH]; intros Ht.
  - reflexivity.
  - cbn [forallb] in Ht. apply andb_true_iff in Ht as [Hc Ht].
    cbn [app List.length starLoop]. rewrite matcher_Class_cons.
    rewrite (classAccepts_letter c Hc). cbn [rest].
    replace (List.length (tag ++ LF :: rest0)
             <? List.length (c :: tag ++ LF :: rest0))%nat with true
      by (symmetry; apply Nat.ltb_lt; cbn [List.length]; lia).
    rewrite (IH Ht). specialize (Hk (MState (LF :: rest0) g)).
    now destruct (k _).
Qed.

Lemma matchAt_fenceOpenRe_tag (tag rest0 : jsstring) :
  forallb isLetter tag = true ->
  matchAt fenceOpenRe (fence ++ tag ++ LF :: rest0) = Some (MState rest0 None).
Proof.
  intros Ht. unfold matchAt. cbn [fenceOpenRe pattern ignoreCase].
  rewrite LabelFacts.matcher_Seq. unfold backticks. rewrite matcher_Lit.
  cbn [rest group1]. fold fence. rewrite LabelFacts.startsWithIgnoreCase_self.
  change (skipn (List.length fence) (fence ++ tag ++ LF :: rest0))
    with (tag ++ LF :: rest0).
  rewrite LabelFacts.matcher_Seq, LabelFacts.matcher_Star. cbn [rest].
  rewrite greedy_tag; [reflexivity | | exact Ht].
  intros [s g]. unfold Opt. rewrite LabelFacts.matcher_Alt.
  destruct (matcher true (Chr LF) (MState s g) Some); discriminate.
Qed.

Lemma fence_cons (r : jsstring) : fence ++ r = 0x60 :: 0x60 :: 0x60 :: r.
Proof. reflexivity. Qed.

(** A payload that is one fenced block -- fence, language tag, newline,
    body, fence -- with no backtick in the body cleans to the trimmed body. *)
Theorem cleanRaw_fenced_block (tag body : jsstring) :
  forallb isLetter tag = true ->
  noBacktick body = true ->
  cleanRaw (fence ++ tag ++ LF :: body ++ fence) = trim body.
Proof.
  intros Ht Hb. unfold cleanRaw, replace.
  cbn [fenceOpenRe fenceRe global].
  assert (H1 : replace_from fenceOpenRe [] 0
                 (fence ++ tag ++ LF :: body ++ fence) = body).
  { assert (Hshape : fence ++ tag ++ LF :: body ++ fence
                     = (0x60 :: ([0x60; 0x60] ++ tag ++ [LF]))
                         ++ body ++ fence).
    { rewrite fence_cons. cbn [app]. now rewrite <- app_assoc. }
    rewrite Hshape.
    rewrite (replace_from_match fenceOpenRe [] 0x60 _ (body ++ fence) None).
    - cbn [app]. rewrite (fenceOpenRe_noBacktick body fence Hb).
      change (replace_from fenceOpenRe [] 0 fence) with (@nil code_unit).
      apply app_nil_r.
    - pose proof (matchAt_fenceOpenRe_tag tag (body ++ fence) Ht) as M.
      rewrite Hshape in M. exact M. }
  rewrite H1, (fenceRe_noBacktick body Hb).
  reflexivity.
Qed.

Lemma cleanRaw_fenced_block_witness :
  cleanRaw (js "```csv" ++ [LF] ++ js "Q1|->A1" ++ [LF] ++ js "```")
  = js "Q1|->A1".
Proof.
  exact (cleanRaw_fenced_block (js "csv") (js "Q1|->A1" ++ [LF])
           eq_refl eq_refl).
Defined.

End FenceFacts.

(** ** The fields of the questions *)

Module FieldFacts.

(** No piece of a split holds the separator. *)
Lemma split_from_no_sep (a : code_unit) (sep : jsstring) :
  forall s k,
    let '(h, t) := split_from (a :: sep) k s in
    includes h (a :: sep) = false
    /\ forall p, In p t -> includes p (a :: sep) = false.
Proof.
  induction s as [|c s IH]; intros k.
  - cbn [split_from]. split; [reflexivity | intros p []].
  - destruct k as [|k]; cbn [split_from].
    + destruct (startsWith (c :: s) (a :: sep)) eqn:Hs.
      * specialize (IH (List.length (a :: sep) - 1)%nat).
        destruct (split_from (a :: sep) (List.length (a :: sep) - 1) s)
          as [h t].
        destruct IH as [Hh Ht]. split; [reflexivity|].
        intros p [<-|Hp]; [exact Hh | now apply Ht].
      * pose proof (NormalizerFacts.split_from_parts (a :: sep) s 0) as Hparts.
        specialize (IH 0%nat). destruct (split_from (a :: sep) 0 s) as [h t].
        destruct IH as [Hh Ht]. destruct Hparts as [[b Hb] _].
        split; [|exact Ht].
        change (startsWith (c :: h) (a :: sep) || includes h (a :: sep) = false).
        rewrite Hh, orb_false_r.
        destruct (startsWith (c :: h) (a :: sep)) eqn:E; [|reflexivity].
        apply (startsWith_app_l (c :: h) b) in E.
        cbn [skipn] in Hb. cbn [app] in E. rewrite <- Hb in E. congruence.
    + apply IH.
Qed.

Lemma split_no_sep (s sep p : jsstring) :
  sep <> [] -> In p (split s sep) -> includes p sep = false.
Proof.
  intros Hsep. destruct sep as [|a sep]; [congruence|]. unfold split.
  pose proof (split_from_no_sep a sep s 0) as H.
  destruct (split_from (a :: sep) 0 s) as [h t]. destruct H as [Hh Ht].
  intros [<-|Hp]; [exact Hh | now apply Ht].
Qed.

Lemma part_trimmed (ps : list jsstring) (i : nat) :
  trim (part (map trim ps) i) = part (map trim ps) i
  /\ (Forall (fun p => includes p fieldDelimiter = false) ps ->
      includes (part (map trim ps) i) fieldDelimiter = false).
Proof.
  unfold part. revert i. induction ps as [|p ps IH]; intros i.
  - destruct i; split; reflexivity.
  - destruct i as [|i]; cbn [map nth].
    + split; [apply trim_idem|]. intros H. inversion H; subst.
      destruct (includes (trim p) fieldDelimiter) eqn:E; [|reflexivity].
      apply includes_trim in E. congruence.
    + destruct (IH i) as [H1 H2]. split; [exact H1|].
      intros H. inversion H; subst. now apply H2.
Qed.

(** What attempt 1 reads off a row that holds the field delimiter. *)
Lemma strategyA_fields
      (uuid row : jsstring) (dS dT : value) (q : Question) :
  strategyA uuid row dS dT = Some q ->
  q = questionOf uuid (fieldsOf (map trim (split row fieldDelimiter)) dS dT)
  /\ Forall (fun p => includes p fieldDelimiter = false)
            (split row fieldDelimiter).
Proof.
  rewrite strategyA_includes.
  destruct (includes row fieldDelimiter); [|discriminate].
  intros H. split; [congruence|].
  apply Forall_forall. intros p Hp.
  apply (split_no_sep row fieldDelimiter p); [discriminate | exact Hp].
Qed.

Lemma strategyA_fields_trimmed
      (uuid row : jsstring) (dS dT : value) (q : Question) :
  strategyA uuid row dS dT = Some q -> fieldsTrimmed q.
Proof.
  intros H. apply strategyA_fields in H as [-> _].
  unfold fieldsTrimmed, questionOf, fieldsOf.
  cbn [description answer f_description f_answer].
  pose proof (part_trimmed (split row fieldDelimiter)) as P.
  destruct (5 <=? List.length (map trim (split row fieldDelimiter)))%nat;
    split; apply (proj1 (P _)).
Qed.

(** The description and the answer that attempt 1 produces are trimmed and
    hold no field delimiter. *)
Theorem strategyA_fields_clean
        (uuid row : jsstring) (dS dT : value) (q : Question) :
  strategyA uuid row dS dT = Some q ->
  fieldsTrimmed q
  /\ includes (description q) fieldDelimiter = false
  /\ includes (answer q) fieldDelimiter = false.
Proof.
  rewrite strategyA_includes.
  destruct (includes row fieldDelimiter); [|discriminate].
  intros H.
  assert (Hq : q = questionOf uuid
                     (fieldsOf (map trim (split row fieldDelimiter)) dS dT))
    by congruence.
  subst q. clear H. unfold fieldsTrimmed, questionOf, fieldsOf.
  cbn [description answer f_description f_answer].
  assert (Hall : Forall (fun p => includes p fieldDelimiter = false)
                        (split row fieldDelimiter)).
  { apply Forall_forall. intros p Hp.
    apply (split_no_sep row fieldDelimiter p); [discriminate | exact Hp]. }
  pose proof (part_trimmed (split row fieldDelimiter)) as P.
  destruct (5 <=? List.length (map trim (split row fieldDelimiter)))%nat;
    repeat split;
    first [apply (proj1 (P _)) | apply (proj2 (P _)); exact Hall].
Qed.

Lemma strategyA_fields_clean_witness :
  let q := {| id := js "id-0"; description := js "Q"; options := VNull;
              answer := js "A"; skill := VNull; type := VNull |} in
  fieldsTrimmed q
  /\ includes (description q) fieldDelimiter = false
  /\ includes (answer q) fieldDelimiter = false.
Proof.
  intros q.
  exact (strategyA_fields_clean (js "id-0") (js " Q |-> A ") VNull VNull q
           eq_refl).
Defined.

Lemma strategyB_fields_trimmed
      (uuid row : jsstring) (dS dT : value) (q : Question) :
  strategyB uuid row dS dT = Some q -> fieldsTrimmed q.
Proof.
  unfold strategyB. destruct (exec descRe row); [|discriminate].
  destruct (exec ansRe row); [|discriminate].
  intros H. inversion H. split; apply trim_idem.
Qed.

(** In every question of the output the description and the answer are
    trimmed. *)
Theorem parseDifyCSV_fields_trimmed
        (rng : nat -> jsstring) (raw : jsstring) (dS dT : value) :
  Forall fieldsTrimmed (parseDifyCSV rng raw dS dT).
Proof.
  unfold parseDifyCSV.
  assert (H : forall rows st,
             Forall fieldsTrimmed (questions st) ->
             Forall fieldsTrimmed
                    (questions (fold_left (parseRow rng dS dT) rows st))).
  { induction rows as [|row rows IH]; intros st Hst; cbn [fold_left];
      [exact Hst|].
    apply IH. unfold parseRow.
    destruct (strategyA (rng (drawn st)) row dS dT) as [q|] eqn:EA.
    - cbn [push questions]. apply Forall_app. split; [exact Hst|].
      constructor; [|constructor].
      now apply strategyA_fields_trimmed in EA.
    - destruct (strategyB (rng (drawn st)) row dS dT) as [q|] eqn:EB;
        [|exact Hst].
      cbn [push questions]. apply Forall_app. split; [exact Hst|].
      constructor; [|constructor].
      now apply strategyB_fields_trimmed in EB. }
  apply H. constructor.
Qed.

End FieldFacts.
